(** * Code-block highlighter of markdown_use.go

    A shallow embedding of the tokenizer ([splitByKeywords]), the keyword
    classifier ([classifyToken]) and the span stylist ([splitCodeContent],
    [isSymbol], [isString]) of [markdown_use.go], together with the parts of
    the Go runtime they rest on: a Go [string] is a sequence of bytes, a
    [for _, r := range s] loop decodes it as UTF-8 and [string(r)] encodes a
    rune back.

    - Go strings are [String.string]: one [ascii] per byte.
    - Runes ([int32]) and byte values are [Z]; the conversion [byte(x)] is
      [uint8 x], that is [x mod 256].
    - Loops that append to a slice are folds that append to a list. *)

From Stdlib Require Import ZArith List Bool Ascii String Lia.
Import ListNotations.

Local Open Scope string_scope.
Local Open Scope list_scope.
Local Open Scope Z_scope.

(** ** Bytes and Go strings *)

Module GoBytes.

(** The numeric value of the byte [c], as [s[i]] gives it. *)
Definition byteval (c : ascii) : Z := Z.of_N (N_of_ascii c).

(** Go's conversion [byte(x)] of an integer: the low eight bits. *)
Definition uint8 (x : Z) : Z := x mod 256.

(** The byte of a string whose value is [x], for [0 <= x < 256]. *)
Definition chr (x : Z) : ascii := ascii_of_N (Z.to_N x).

(** [s[n:]], for [n <= len(s)]. *)
Fixpoint drop (n : nat) (s : string) : string :=
  match n, s with
  | O, _ => s
  | S n', String _ s' => drop n' s'
  | S _, EmptyString => EmptyString
  end.

(** [s[:n]], for [n <= len(s)]. *)
Fixpoint take (n : nat) (s : string) : string :=
  match n, s with
  | O, _ => EmptyString
  | S n', String c s' => String c (take n' s')
  | S _, EmptyString => EmptyString
  end.

(** The double-quote byte, and the escapes [\t] and [\n] of Go literals. *)
Definition dquote : ascii := chr 34.
Definition tab : ascii := chr 9.
Definition newline : ascii := chr 10.

End GoBytes.
Import GoBytes.

(** ** UTF-8 as the Go runtime implements it (runtime/utf8.go) *)

Module Utf8.

Definition rune := Z.

Definition runeError : rune := 0xFFFD.
Definition runeSelf : Z := 0x80.
Definition maxRune : rune := 0x10FFFF.

Definition surrogateMin : rune := 0xD800.
Definition surrogateMax : rune := 0xDFFF.

Definition tx : Z := 0x80.
Definition t2 : Z := 0xC0.
Definition t3 : Z := 0xE0.
Definition t4 : Z := 0xF0.
Definition t5 : Z := 0xF8.

Definition maskx : Z := 0x3F.
Definition mask2 : Z := 0x1F.
Definition mask3 : Z := 0x0F.
Definition mask4 : Z := 0x07.

Definition rune1Max : Z := 0x7F.
Definition rune2Max : Z := 0x7FF.
Definition rune3Max : Z := 0xFFFF.

Definition locb : Z := 0x80.
Definition hicb : Z := 0xBF.

(** [locb <= b && b <= hicb]: [b] is a continuation byte. *)
Definition cont (b : Z) : bool := (locb <=? b) && (b <=? hicb).

(** [decoderune(s, k)] on the suffix [s[k:]]: the rune that starts there
    and the number of bytes it takes. A sequence that is not the UTF-8
    encoding of a rune gives [(runeError, 1)]. *)
Definition decoderune (s : string) : rune * nat :=
  match s with
  | EmptyString => (runeError, 1%nat)
  | String c0 s1 =>
    let b0 := byteval c0 in
    if (t2 <=? b0) && (b0 <? t3) then
      match s1 with
      | String c1 _ =>
        let b1 := byteval c1 in
        if cont b1 then
          let r := Z.lor (Z.shiftl (Z.land b0 mask2) 6) (Z.land b1 maskx) in
          if rune1Max <? r then (r, 2%nat) else (runeError, 1%nat)
        else (runeError, 1%nat)
      | EmptyString => (runeError, 1%nat)
      end
    else if (t3 <=? b0) && (b0 <? t4) then
      match s1 with
      | String c1 (String c2 _) =>
        let b1 := byteval c1 in
        let b2 := byteval c2 in
        if cont b1 && cont b2 then
          let r := Z.lor (Z.lor (Z.shiftl (Z.land b0 mask3) 12)
                                (Z.shiftl (Z.land b1 maskx) 6))
                         (Z.land b2 maskx) in
          if (rune2Max <? r)
             && negb ((surrogateMin <=? r) && (r <=? surrogateMax))
          then (r, 3%nat) else (runeError, 1%nat)
        else (runeError, 1%nat)
      | _ => (runeError, 1%nat)
      end
    else if (t4 <=? b0) && (b0 <? t5) then
      match s1 with
      | String c1 (String c2 (String c3 _)) =>
        let b1 := byteval c1 in
        let b2 := byteval c2 in
        let b3 := byteval c3 in
        if cont b1 && cont b2 && cont b3 then
          let r := Z.lor (Z.lor (Z.lor (Z.shiftl (Z.land b0 mask4) 18)
                                       (Z.shiftl (Z.land b1 maskx) 12))
                                (Z.shiftl (Z.land b2 maskx) 6))
                         (Z.land b3 maskx) in
          if (rune3Max <? r) && (r <=? maxRune)
          then (r, 4%nat) else (runeError, 1%nat)
        else (runeError, 1%nat)
      | _ => (runeError, 1%nat)
      end
    else (runeError, 1%nat)
  end.

(** One iteration header of [for _, r := range s] on a nonempty suffix:
    a byte below [runeSelf] is the rune itself, anything else goes
    through [decoderune]. *)
Definition rangeStep (c : ascii) (s' : string) : rune * nat :=
  if byteval c <? runeSelf then (byteval c, 1%nat)
  else decoderune (String c s').

(** The runes a [range] loop over [s] visits, in order. Every iteration
    advances by at least one byte, so [String.length s] iterations are
    enough ([rangeRunes]). *)
Fixpoint rangeFrom (fuel : nat) (s : string) : list rune :=
  match fuel with
  | O => []
  | S fuel' =>
    match s with
    | EmptyString => []
    | String c s' =>
      let '(r, w) := rangeStep c s' in
      r :: rangeFrom fuel' (drop w s)
    end
  end.

Definition rangeRunes (s : string) : list rune :=
  rangeFrom (String.length s) s.

(** [encoderune]: the UTF-8 encoding of [r]; a rune out of range or a
    surrogate is encoded as [runeError]. The switch is on [uint32(r)]. *)
Definition encoderune (r : rune) : string :=
  let i := r mod 2 ^ 32 in
  let three (r : rune) :=
    String (chr (Z.lor t3 (uint8 (Z.shiftr r 12))))
      (String (chr (Z.lor tx (Z.land (uint8 (Z.shiftr r 6)) maskx)))
        (String (chr (Z.lor tx (Z.land (uint8 r) maskx))) EmptyString)) in
  if i <=? rune1Max then
    String (chr (uint8 r)) EmptyString
  else if i <=? rune2Max then
    String (chr (Z.lor t2 (uint8 (Z.shiftr r 6))))
      (String (chr (Z.lor tx (Z.land (uint8 r) maskx))) EmptyString)
  else if (maxRune <? i) || ((surrogateMin <=? i) && (i <=? surrogateMax)) then
    three runeError
  else if i <=? rune3Max then
    three r
  else
    String (chr (Z.lor t4 (uint8 (Z.shiftr r 18))))
      (String (chr (Z.lor tx (Z.land (uint8 (Z.shiftr r 12)) maskx)))
        (String (chr (Z.lor tx (Z.land (uint8 (Z.shiftr r 6)) maskx)))
          (String (chr (Z.lor tx (Z.land (uint8 r) maskx))) EmptyString))).

(** The conversion [string(r)] of a rune. *)
Definition runeString (r : rune) : string := encoderune r.

(** [utf8.ValidRune]. *)
Definition ValidRune (r : rune) : bool :=
  ((0 <=? r) && (r <? surrogateMin))
  || ((surrogateMax <? r) && (r <=? maxRune)).

(** A failed decoding: the pair [(runeError, 1)] marks a malformed
    sequence. *)
Definition malformed (r : rune) (w : nat) : bool :=
  Z.eqb r runeError && Nat.eqb w 1.

(** [utf8.ValidString]: no position of [s] decodes to the
    [(runeError, 1)] that marks a malformed sequence. *)
Fixpoint validFrom (fuel : nat) (s : string) : bool :=
  match fuel with
  | O => true
  | S fuel' =>
    match s with
    | EmptyString => true
    | String c s' =>
      let '(r, w) := rangeStep c s' in
      negb (malformed r w) && validFrom fuel' (drop w s)
    end
  end.

Definition ValidString (s : string) : bool :=
  validFrom (String.length s) s.

End Utf8.
Import Utf8.

(** ** The functions of package strings the highlighter calls *)

Module Strings.

(** [IndexByte(s, c) >= 0]. *)
Fixpoint hasByte (s : string) (c : Z) : bool :=
  match s with
  | EmptyString => false
  | String a s' => (byteval a =? c) || hasByte s' c
  end.

(** [HasPrefix(s, prefix)]:
    [len(s) >= len(prefix) && s[:len(prefix)] == prefix]. *)
Definition HasPrefix (s pre : string) : bool :=
  (String.length pre <=? String.length s)%nat
  && String.eqb (take (String.length pre) s) pre.

(** [HasSuffix(s, suffix)]:
    [len(s) >= len(suffix) && s[len(s)-len(suffix):] == suffix]. *)
Definition HasSuffix (s suf : string) : bool :=
  (String.length suf <=? String.length s)%nat
  && String.eqb (drop (String.length s - String.length suf) s) suf.

(** [Index(s, substr) >= 0]: [substr] starts at some position of [s]. *)
Fixpoint hasSubstr (s sub : string) : bool :=
  HasPrefix s sub
  || match s with
     | EmptyString => false
     | String _ s' => hasSubstr s' sub
     end.

(** [ContainsRune(s, r)], that is [IndexRune(s, r) >= 0], with the four
    cases of [IndexRune]: a rune below [runeSelf] is looked up as a byte,
    [runeError] matches the first malformed sequence (or an encoded
    U+FFFD), an invalid rune is never found, and any other rune is looked
    up by its encoding. *)
Definition ContainsRune (s : string) (r : rune) : bool :=
  if (0 <=? r) && (r <? runeSelf) then hasByte s (uint8 r)
  else if r =? runeError then existsb (Z.eqb runeError) (rangeRunes s)
  else if negb (ValidRune r) then false
  else hasSubstr s (runeString r).

End Strings.
Import Strings.

(** ** The highlighter *)

(** The anonymous result struct of [splitByKeywords] and [classifyToken]. *)
Record Token : Type := mkToken { Text : string; IsKeyword : bool }.

(** [classifyToken]: the loop over [keywords], which leaves at the first
    match. *)
Fixpoint classifyLoop (token : string) (keywords : list string)
         (isKeyword : bool) : bool :=
  match keywords with
  | [] => isKeyword
  | keyword :: keywords' =>
    if String.eqb token keyword then true
    else classifyLoop token keywords' isKeyword
  end.

Definition classifyToken (token : string) (keywords : list string) : Token :=
  {| Text := token; IsKeyword := classifyLoop token keywords false |}.

(** The separators of [splitByKeywords]: [" \t\n().,;{}"]. *)
Definition separators : string :=
  String " " (String tab (String newline "().,;{}")).

(** [if token != "" { result = append(result, classifyToken(...)) }]. *)
Definition flush (keywords : list string) (token : string)
           (result : list Token) : list Token :=
  if negb (String.eqb token "") then result ++ [classifyToken token keywords]
  else result.

(** The body of the loop of [splitByKeywords] on the state
    [(token, result)]. *)
Definition scanStep (keywords : list string)
           (st : string * list Token) (r : rune) : string * list Token :=
  let '(token, result) := st in
  if ContainsRune separators r then
    ("", flush keywords token result
           ++ [{| Text := runeString r; IsKeyword := false |}])
  else
    ((token ++ runeString r)%string, result).

Definition splitByKeywords (content : string) (keywords : list string)
  : list Token :=
  let '(token, result) :=
    fold_left (scanStep keywords) (rangeRunes content) ("", []) in
  flush keywords token result.

(** [isSymbol]; [text[0]] is read only when [len(text) == 1]. *)
Definition symbols : string := "(),;{}".

Definition isSymbol (text : string) : bool :=
  (String.length text =? 1)%nat
  && match text with
     | String c _ => ContainsRune symbols (byteval c)
     | EmptyString => false
     end.

(** [isString]. *)
Definition isString (text : string) : bool :=
  HasPrefix text (String dquote "") && HasSuffix text (String dquote "").

(** [color.NRGBA], and the two fixed colors of the stylist. *)
Record NRGBA : Type := mkNRGBA { R : Z; G : Z; B : Z; A : Z }.

Definition symbolColor : NRGBA := mkNRGBA 0xFF 0 0 0xFF.
Definition stringColor : NRGBA := mkNRGBA 0xFF 0x69 0xB4 0xFF.

(** [material.Palette], and of [material.Theme] the one field the stylist
    reads. [splitCodeContent] dereferences its theme pointer; the embedding
    takes the theme it points to. *)
Record Palette : Type :=
  mkPalette { Bg : NRGBA; Fg : NRGBA; ContrastBg : NRGBA; ContrastFg : NRGBA }.

Record Theme : Type := mkTheme { ThemePalette : Palette }.

Section Stylist.

(** [richtext.SpanStyle] is declared by gioui.org/x/richtext; the types of
    the fields the highlighter only copies are left open. *)
Variables FontT SizeT MetadataT : Type.

Record SpanStyle : Type := mkSpanStyle {
  Font : FontT;
  Size : SizeT;
  Color : NRGBA;
  Content : string;
  Interactive : bool;
  metadata : MetadataT
}.

Definition withColor (ns : SpanStyle) (c : NRGBA) : SpanStyle :=
  {| Font := Font ns; Size := Size ns; Color := c; Content := Content ns;
     Interactive := Interactive ns; metadata := metadata ns |}.

Definition withContent (ns : SpanStyle) (s : string) : SpanStyle :=
  {| Font := Font ns; Size := Size ns; Color := Color ns; Content := s;
     Interactive := Interactive ns; metadata := metadata ns |}.

Definition keywords : list string := ["func"; "main"; "Println"].

(** The body of the loop of [splitCodeContent] up to the [append]: copy
    the span, pick the color by the [switch], set the content. *)
Definition styleToken (span : SpanStyle) (th : Theme) (part : Token)
  : SpanStyle :=
  let ns := span in
  let ns :=
    if IsKeyword part then withColor ns (ContrastBg (ThemePalette th))
    else if isSymbol (Text part) then withColor ns symbolColor
    else if isString (Text part) then withColor ns stringColor
    else withColor ns (Fg (ThemePalette th)) in
  withContent ns (Text part).

Definition splitCodeContent (span : SpanStyle) (th : Theme)
  : list SpanStyle :=
  let parts := splitByKeywords (Content span) keywords in
  fold_left (fun styledSpans part => styledSpans ++ [styleToken span th part])
            parts [].

End Stylist.

Arguments Font {FontT SizeT MetadataT} _.
Arguments Size {FontT SizeT MetadataT} _.
Arguments Color {FontT SizeT MetadataT} _.
Arguments Content {FontT SizeT MetadataT} _.
Arguments Interactive {FontT SizeT MetadataT} _.
Arguments metadata {FontT SizeT MetadataT} _.
Arguments withColor {FontT SizeT MetadataT} _ _.
Arguments withContent {FontT SizeT MetadataT} _ _.
Arguments styleToken {FontT SizeT MetadataT} _ _ _.
Arguments splitCodeContent {FontT SizeT MetadataT} _ _.

(** ** Vocabulary of the properties *)

(** The concatenation of [string(r)] over the runes [rs]. *)
Fixpoint encodeRunes (rs : list rune) : string :=
  match rs with
  | [] => ""
  | r :: rs' => (runeString r ++ encodeRunes rs')%string
  end.

(** The concatenation of the [Text] fields of [ts], in order. *)
Fixpoint joinTexts (ts : list Token) : string :=
  match ts with
  | [] => ""
  | t :: ts' => (Text t ++ joinTexts ts')%string
  end.

(** The code points of the bytes of [separators]. *)
Definition separatorRunes : list rune :=
  [32; 9; 10; 40; 41; 46; 44; 59; 123; 125].

(** A piece of the rune sequence of the input: one separator rune, or a run
    of runes. *)
Inductive chunk : Type :=
| Sep (r : rune)
| Run (rs : list rune).

Definition chunkRunes (c : chunk) : list rune :=
  match c with
  | Sep r => [r]
  | Run rs => rs
  end.

Definition isRun (c : chunk) : bool :=
  match c with
  | Sep _ => false
  | Run _ => true
  end.

(** A separator chunk holds a separator, whose text is that one byte; a run
    is nonempty and holds no separator. *)
Definition chunkOk (c : chunk) : Prop :=
  match c with
  | Sep r =>
    ContainsRune separators r = true /\ runeString r = String (chr r) ""
  | Run rs =>
    rs <> [] /\ Forall (fun r => ContainsRune separators r = false) rs
  end.

(** No two runs are neighbours: every run ends at a separator or at the end
    of the input, and starts after a separator or at the start. *)
Fixpoint runsMaximal (cs : list chunk) : Prop :=
  match cs with
  | [] => True
  | c :: cs' =>
    match cs' with
    | [] => True
    | c' :: _ => isRun c && isRun c' = false
    end /\ runsMaximal cs'
  end.

(** The token the tokenizer makes of a chunk. *)
Definition tokenOf (kws : list string) (c : chunk) : Token :=
  match c with
  | Sep r => {| Text := runeString r; IsKeyword := false |}
  | Run rs => classifyToken (encodeRunes rs) kws
  end.

(** The chunks of [cur ++ rs], where [cur] is a run already begun. *)
Definition pending (cur : list rune) : list chunk :=
  match cur with
  | [] => []
  | _ :: _ => [Run cur]
  end.

Fixpoint chunksFrom (cur rs : list rune) : list chunk :=
  match rs with
  | [] => pending cur
  | r :: rs' =>
    if ContainsRune separators r
    then pending cur ++ Sep r :: chunksFrom [] rs'
    else chunksFrom (cur ++ [r]) rs'
  end.

(** The four classes of the stylist, the color of each, and the precedence
    keyword > symbol > string > default as a relation. *)
Inductive styleClass : Type :=
| KeywordClass
| SymbolClass
| StringClass
| DefaultClass.

Definition classColor (th : Theme) (cls : styleClass) : NRGBA :=
  match cls with
  | KeywordClass => ContrastBg (ThemePalette th)
  | SymbolClass => symbolColor
  | StringClass => stringColor
  | DefaultClass => Fg (ThemePalette th)
  end.

Inductive classOf (part : Token) : styleClass -> Prop :=
| class_keyword :
    IsKeyword part = true -> classOf part KeywordClass
| class_symbol :
    IsKeyword part = false -> isSymbol (Text part) = true ->
    classOf part SymbolClass
| class_string :
    IsKeyword part = false -> isSymbol (Text part) = false ->
    isString (Text part) = true -> classOf part StringClass
| class_default :
    IsKeyword part = false -> isSymbol (Text part) = false ->
    isString (Text part) = false -> classOf part DefaultClass.

(** A text in double quotes: [dquote], [mid], [dquote]. *)
Definition quoted (mid : string) : string :=
  String dquote (mid ++ String dquote "")%string.

(** Inputs at which the properties are instantiated. *)

(** A line of code with a three-byte rune (U+4E2D) in it. *)
Definition sampleLine : string :=
  ("x := " ++ String (chr 0xE4) (String (chr 0xB8) (String (chr 0xAD) ""))
           ++ ".f()")%string.

Definition sampleSpan (content : string) : SpanStyle unit unit unit :=
  mkSpanStyle unit unit unit tt tt (mkNRGBA 0 0 0 0xFF) content false tt.

Definition sampleTheme : Theme :=
  mkTheme (mkPalette (mkNRGBA 0xFF 0xFF 0xFF 0xFF) (mkNRGBA 0 0 0 0xFF)
                     (mkNRGBA 0x3F 0x51 0xB5 0xFF)
                     (mkNRGBA 0xFF 0xFF 0xFF 0xFF)).

(** ** The rest of the program: the span loop of [main] and the fonts *)

Section MainLoop.

Variables FontT SizeT MetadataT : Type.

(** [span.Font.Typeface]; [font.Font] is declared by gioui.org/font. *)
Variable Typeface : FontT -> string.

(** The loop of [main] over the rendered spans: a span in the monospace
    typeface is replaced by the segments of [splitCodeContent], any other
    span is kept. *)
Definition isCode (span : SpanStyle FontT SizeT MetadataT) : bool :=
  String.eqb (Typeface (Font span)) "monospace".

Definition styleSpansStep (th : Theme)
           (styledSpans : list (SpanStyle FontT SizeT MetadataT))
           (span : SpanStyle FontT SizeT MetadataT)
  : list (SpanStyle FontT SizeT MetadataT) :=
  if isCode span
  then styledSpans ++ splitCodeContent span th
  else styledSpans ++ [span].

Definition styleSpans (th : Theme)
           (spans : list (SpanStyle FontT SizeT MetadataT))
  : list (SpanStyle FontT SizeT MetadataT) :=
  fold_left (styleSpansStep th) spans [].

End MainLoop.

Arguments isCode {FontT SizeT MetadataT} _ _.
Arguments styleSpansStep {FontT SizeT MetadataT} _ _ _ _.
Arguments styleSpans {FontT SizeT MetadataT} _ _ _.

Section Fonts.

(** The contents of a file, a parsed [opentype.Face] and the errors of
    [os] and [opentype] are those of the libraries; [os.ReadFile] and
    [opentype.Parse] are taken as they are given. *)
Variables FileData Face LibError : Type.
Variable ReadFile : string -> FileData + LibError.
Variable Parse : FileData -> Face + LibError.

(** An [error]: one of a library, or the result of [fmt.Errorf] with its
    format, its string operands and the error it wraps or prints. *)
Inductive error : Type :=
| LibraryError (e : LibError)
| Errorf (format : string) (operands : list string) (cause : error).

(** [loadFont]: the pointer to the face (nil on failure) and the error
    (nil on success). *)
Definition loadFont (fontPath : string) : option Face * option error :=
  match ReadFile fontPath with
  | inr err =>
    (None, Some (Errorf "无法读取字体文件 %s, %w" [fontPath] (LibraryError err)))
  | inl fontData =>
    match Parse fontData with
    | inr err =>
      (None, Some (Errorf "无法解析字体文件: %s, %w" [fontPath]
                          (LibraryError err)))
    | inl face => (Some face, None)
    end
  end.

(** The three package variables; a nil pointer is [None]. *)
Record Faces : Type := mkFaces {
  regularFace : option Face;
  boldFace : option Face;
  italicFace : option Face
}.

(** [loadFonts]: the variables after the call, and the error returned.
    Each assignment [xFace, err = loadFont(...)] writes the variable
    before [err] is looked at. *)
Definition loadFonts (vars : Faces) : Faces * option error :=
  let '(face, err) := loadFont "fonts/SourceHanSansSC-Regular.otf" in
  let vars := {| regularFace := face; boldFace := boldFace vars;
                 italicFace := italicFace vars |} in
  match err with
  | Some err => (vars, Some (Errorf "无法加载常规字体: %v" [] err))
  | None =>
    let '(face, err) := loadFont "fonts/SourceHanSansSC-Bold.otf" in
    let vars := {| regularFace := regularFace vars; boldFace := face;
                   italicFace := italicFace vars |} in
    match err with
    | Some err => (vars, Some (Errorf "无法加载粗体: %v" [] err))
    | None =>
      let '(face, err) := loadFont "fonts/JiangChengItalicBold400W.ttf" in
      let vars := {| regularFace := regularFace vars;
                     boldFace := boldFace vars; italicFace := face |} in
      match err with
      | Some err => (vars, Some (Errorf "无法加载斜体: %v" [] err))
      | None => (vars, None)
      end
    end
  end.

(** [font.Weight], [font.Style] and [font.Font], as far as
    [configureShaper] sets them; [font.FontFace]. *)
Inductive Weight : Type := Normal | Bold.
Inductive Style : Type := Regular | Italic.

Record GioFont : Type :=
  mkGioFont { FontTypeface : string; FontStyle : Style; FontWeight : Weight }.

Record FontFace : Type := mkFontFace { FaceFont : GioFont; FaceOf : Face }.

(** [configureShaper]: the collection handed to [text.NewShaper]. Each of
    [*regularFace], [*boldFace] and [*italicFace] panics on a nil pointer:
    [None]. *)
Definition configureShaper (vars : Faces) : option (list FontFace) :=
  match regularFace vars, boldFace vars, italicFace vars with
  | Some regular, Some bold, Some italic =>
    Some [ {| FaceFont := mkGioFont "Source Han Sans" Regular Normal;
              FaceOf := regular |};
           {| FaceFont := mkGioFont "Source Han Sans" Regular Bold;
              FaceOf := bold |};
           {| FaceFont := mkGioFont "Source Han Sans" Italic Normal;
              FaceOf := italic |} ]
  | _, _, _ => None
  end.

(** The start of [main]: [loadFonts], [log.Fatalf] on an error, otherwise
    [configureShaper]. *)
Inductive startup : Type :=
| Fatal (err : error)
| Panic
| Shaper (collection : list FontFace).

Definition startFonts (vars : Faces) : startup :=
  match loadFonts vars with
  | (_, Some err) => Fatal err
  | (vars', None) =>
    match configureShaper vars' with
    | None => Panic
    | Some collection => Shaper collection
    end
  end.

(** A font file loads: it can be read and what is read can be parsed. *)
Definition loads (path : string) : Prop :=
  exists data face, ReadFile path = inl data /\ Parse data = inl face.

End Fonts.

Arguments LibraryError {LibError} _.
Arguments Errorf {LibError} _ _ _.
Arguments loadFont {FileData Face LibError} _ _ _.
Arguments mkFaces {Face} _ _ _.
Arguments regularFace {Face} _.
Arguments boldFace {Face} _.
Arguments italicFace {Face} _.
Arguments loadFonts {FileData Face LibError} _ _ _.
Arguments mkFontFace {Face} _ _.
Arguments FaceFont {Face} _.
Arguments FaceOf {Face} _.
Arguments configureShaper {Face} _.
Arguments Fatal {Face LibError} _.
Arguments Panic {Face LibError}.
Arguments Shaper {Face LibError} _.
Arguments startFonts {FileData Face LibError} _ _ _.
Arguments loads {FileData Face LibError} _ _ _.

(** The concatenation of the [Content] fields of [spans], in order. *)
Fixpoint joinContents {FontT SizeT MetadataT : Type}
         (spans : list (SpanStyle FontT SizeT MetadataT)) : string :=
  match spans with
  | [] => ""
  | span :: spans' => (Content span ++ joinContents spans')%string
  end.

(** The texts of the separator tokens: one byte of [separators] each. *)
Definition separatorTexts : list string :=
  map (fun c => String c "") (list_ascii_of_string separators).

(** The texts [isSymbol] accepts: one byte of [symbols] each. *)
Definition symbolTexts : list string :=
  map (fun c => String c "") (list_ascii_of_string symbols).

(** The three font files of [loadFonts], in the order they are loaded. *)
Definition fontPaths : list string :=
  [ "fonts/SourceHanSansSC-Regular.otf";
    "fonts/SourceHanSansSC-Bold.otf";
    "fonts/JiangChengItalicBold400W.ttf" ].

(** Two rendered spans, the first in the monospace typeface, over fonts
    that are their typeface; an environment in which every file is read
    and parses. *)
Definition sampleSpans : list (SpanStyle string unit unit) :=
  [ mkSpanStyle string unit unit "monospace" tt (mkNRGBA 0 0 0 0xFF)
                "func f(x)" false tt;
    mkSpanStyle string unit unit "serif" tt (mkNRGBA 0 0 0 0xFF)
                "a (b)" true tt ].

Definition sampleReadFile (path : string) : string + unit := inl path.
Definition sampleParse (data : string) : string + unit := inl data.

(** * Properties *)

(** ** Bytes *)

Section ByteFacts.

Lemma byteval_range (c : ascii) : 0 <= byteval c < 256.
Proof.
  unfold byteval.
  pose proof (N_ascii_bounded c) as Hb.
  lia.
Qed.

Lemma chr_byteval (c : ascii) : chr (byteval c) = c.
Proof.
  unfold chr, byteval.
  rewrite N2Z.id.
  apply ascii_N_embedding.
Qed.

Lemma byteval_chr (x : Z) : 0 <= x < 256 -> byteval (chr x) = x.
Proof.
  intros Hx. unfold chr, byteval.
  rewrite N_ascii_embedding by lia.
  lia.
Qed.

Lemma chr_eq_of_byteval (x : Z) (c : ascii) : x = byteval c -> chr x = c.
Proof. intros ->. apply chr_byteval. Qed.

End ByteFacts.

(** ** Bit operations as arithmetic *)

(** Linear arithmetic with division and remainder by constants. *)
Ltac divmod := Z.div_mod_to_equations; lia.

Section BitFacts.

(** An [or] whose operands share no bit is a sum. *)
Lemma lor_disjoint_add (n x y : Z) :
  0 <= n -> 0 <= x -> x mod 2 ^ n = 0 -> 0 <= y < 2 ^ n ->
  Z.lor x y = x + y.
Proof.
  intros Hn Hx Hmod Hy.
  assert (Hland : Z.land x y = 0).
  { apply Z.bits_inj'. intros m Hm.
    rewrite Z.land_spec, Z.bits_0.
    destruct (Z.lt_ge_cases m n) as [Hlt | Hge].
    - assert (Hxm : Z.testbit x m = false).
      { rewrite <- (Z.mod_pow2_bits_low x n m) by lia.
        rewrite Hmod. apply Z.bits_0. }
      rewrite Hxm. reflexivity.
    - assert (Hym : Z.testbit y m = false).
      { destruct (Z.eq_dec y 0) as [-> | Hne]; [apply Z.bits_0 |].
        apply Z.bits_above_log2; [lia |].
        apply Z.lt_le_trans with n; [| lia].
        apply Z.log2_lt_pow2; lia. }
      rewrite Hym. apply andb_false_r. }
  rewrite <- Z.lxor_lor by exact Hland.
  symmetry. apply Z.add_nocarry_lxor. exact Hland.
Qed.

Lemma land_low_bits (x n : Z) : 0 <= n -> Z.land x (2 ^ n - 1) = x mod 2 ^ n.
Proof.
  intros Hn.
  replace (2 ^ n - 1) with (Z.ones n) by (rewrite Z.ones_equiv; lia).
  apply Z.land_ones. exact Hn.
Qed.

Lemma land_maskx (x : Z) : Z.land x maskx = x mod 64.
Proof. exact (land_low_bits x 6 ltac:(lia)). Qed.

Lemma land_mask2 (x : Z) : Z.land x mask2 = x mod 32.
Proof. exact (land_low_bits x 5 ltac:(lia)). Qed.

Lemma land_mask3 (x : Z) : Z.land x mask3 = x mod 16.
Proof. exact (land_low_bits x 4 ltac:(lia)). Qed.

Lemma land_mask4 (x : Z) : Z.land x mask4 = x mod 8.
Proof. exact (land_low_bits x 3 ltac:(lia)). Qed.

Lemma lor_tx (v : Z) : 0 <= v < 64 -> Z.lor tx v = 128 + v.
Proof. intros Hv. apply (lor_disjoint_add 6); unfold tx; try lia; reflexivity. Qed.

Lemma lor_t2 (v : Z) : 0 <= v < 32 -> Z.lor t2 v = 192 + v.
Proof. intros Hv. apply (lor_disjoint_add 5); unfold t2; try lia; reflexivity. Qed.

Lemma lor_t3 (v : Z) : 0 <= v < 16 -> Z.lor t3 v = 224 + v.
Proof. intros Hv. apply (lor_disjoint_add 4); unfold t3; try lia; reflexivity. Qed.

Lemma lor_t4 (v : Z) : 0 <= v < 8 -> Z.lor t4 v = 240 + v.
Proof. intros Hv. apply (lor_disjoint_add 3); unfold t4; try lia; reflexivity. Qed.

End BitFacts.

(** ** Decoding a well-formed sequence and encoding the rune gives the
       bytes back *)

Section DecodeEncode.

(** The rune of a two-byte sequence, as arithmetic. *)
Lemma rune2_value (b0 b1 : Z) :
  192 <= b0 < 224 -> 128 <= b1 < 192 ->
  Z.lor (Z.shiftl (Z.land b0 mask2) 6) (Z.land b1 maskx)
  = (b0 - 192) * 64 + (b1 - 128).
Proof.
  intros H0 H1.
  rewrite land_mask2, land_maskx, Z.shiftl_mul_pow2 by lia.
  rewrite (lor_disjoint_add 6); try lia.
  all: change (2 ^ 6) with 64; divmod.
Qed.

Lemma rune3_value (b0 b1 b2 : Z) :
  224 <= b0 < 240 -> 128 <= b1 < 192 -> 128 <= b2 < 192 ->
  Z.lor (Z.lor (Z.shiftl (Z.land b0 mask3) 12)
               (Z.shiftl (Z.land b1 maskx) 6))
        (Z.land b2 maskx)
  = (b0 - 224) * 4096 + (b1 - 128) * 64 + (b2 - 128).
Proof.
  intros H0 H1 H2.
  rewrite land_mask3, !land_maskx, !Z.shiftl_mul_pow2 by lia.
  change (2 ^ 12) with 4096. change (2 ^ 6) with 64.
  rewrite (lor_disjoint_add 12 (b0 mod 16 * 4096)); try lia.
  2-4: change (2 ^ 12) with 4096; divmod.
  rewrite (lor_disjoint_add 6); try lia.
  all: change (2 ^ 6) with 64; divmod.
Qed.

Lemma rune4_value (b0 b1 b2 b3 : Z) :
  240 <= b0 < 248 -> 128 <= b1 < 192 -> 128 <= b2 < 192 ->
  128 <= b3 < 192 ->
  Z.lor (Z.lor (Z.lor (Z.shiftl (Z.land b0 mask4) 18)
                      (Z.shiftl (Z.land b1 maskx) 12))
               (Z.shiftl (Z.land b2 maskx) 6))
        (Z.land b3 maskx)
  = (b0 - 240) * 262144 + (b1 - 128) * 4096 + (b2 - 128) * 64 + (b3 - 128).
Proof.
  intros H0 H1 H2 H3.
  rewrite land_mask4, !land_maskx, !Z.shiftl_mul_pow2 by lia.
  change (2 ^ 18) with 262144. change (2 ^ 12) with 4096.
  change (2 ^ 6) with 64.
  rewrite (lor_disjoint_add 18 (b0 mod 8 * 262144)); try lia.
  2-4: change (2 ^ 18) with 262144; divmod.
  rewrite (lor_disjoint_add 12 (b0 mod 8 * 262144 + b1 mod 64 * 4096));
    try lia.
  2-4: change (2 ^ 12) with 4096; divmod.
  rewrite (lor_disjoint_add 6); try lia.
  all: change (2 ^ 6) with 64; divmod.
Qed.

Lemma uint32_small (r : Z) : 0 <= r <= maxRune -> r mod 2 ^ 32 = r.
Proof.
  unfold maxRune. intros Hr. apply Z.mod_small.
  change (2 ^ 32) with 4294967296. lia.
Qed.

Lemma encoderune_1 (b : Z) :
  0 <= b < 128 -> encoderune b = String (chr b) EmptyString.
Proof.
  intros Hb. unfold encoderune.
  rewrite uint32_small by (unfold maxRune; lia).
  destruct (Z.leb_spec b rune1Max) as [_ | Hgt];
    [| unfold rune1Max in Hgt; lia].
  unfold uint8. rewrite Z.mod_small by lia. reflexivity.
Qed.

Lemma encoderune_2 (a d : Z) :
  0 <= a < 32 -> 0 <= d < 64 -> 127 < a * 64 + d ->
  encoderune (a * 64 + d)
  = String (chr (192 + a)) (String (chr (128 + d)) EmptyString).
Proof.
  intros Ha Hd Hr. unfold encoderune.
  set (r := a * 64 + d) in *.
  rewrite uint32_small by (unfold maxRune; lia).
  destruct (Z.leb_spec r rune1Max) as [Hle | _];
    [unfold rune1Max in Hle; lia |].
  destruct (Z.leb_spec r rune2Max) as [_ | Hgt];
    [| unfold rune2Max in Hgt; lia].
  unfold uint8. rewrite land_maskx, Z.shiftr_div_pow2 by lia.
  change (2 ^ 6) with 64.
  replace ((r / 64) mod 256) with a by (subst r; divmod).
  replace ((r mod 256) mod 64) with d by (subst r; divmod).
  rewrite lor_t2, lor_tx by lia. reflexivity.
Qed.

Lemma encoderune_3 (a b d : Z) :
  0 <= a < 16 -> 0 <= b < 64 -> 0 <= d < 64 ->
  2047 < a * 4096 + b * 64 + d ->
  ~ (surrogateMin <= a * 4096 + b * 64 + d <= surrogateMax) ->
  encoderune (a * 4096 + b * 64 + d)
  = String (chr (224 + a))
      (String (chr (128 + b)) (String (chr (128 + d)) EmptyString)).
Proof.
  intros Ha Hb Hd Hr Hs. unfold encoderune.
  set (r := a * 4096 + b * 64 + d) in *.
  rewrite uint32_small by (unfold maxRune; lia).
  destruct (Z.leb_spec r rune1Max) as [Hle | _];
    [unfold rune1Max in Hle; lia |].
  destruct (Z.leb_spec r rune2Max) as [Hle | _];
    [unfold rune2Max in Hle; lia |].
  destruct (Z.ltb_spec maxRune r) as [Hlt | _];
    [unfold maxRune in Hlt; lia |].
  destruct (Z.leb_spec surrogateMin r) as [Hlo | _];
    [destruct (Z.leb_spec r surrogateMax) as [Hhi | _]; [lia |] |];
    cbn [orb andb].
  all: destruct (Z.leb_spec r rune3Max) as [_ | Hgt];
    [| unfold rune3Max in Hgt; lia].
  all: unfold uint8; rewrite !land_maskx, !Z.shiftr_div_pow2 by lia;
    change (2 ^ 12) with 4096; change (2 ^ 6) with 64;
    replace ((r / 4096) mod 256) with a by (subst r; divmod);
    replace (((r / 64) mod 256) mod 64) with b by (subst r; divmod);
    replace ((r mod 256) mod 64) with d by (subst r; divmod);
    rewrite lor_t3, !lor_tx by lia; reflexivity.
Qed.

Lemma encoderune_4 (a b c d : Z) :
  0 <= a < 8 -> 0 <= b < 64 -> 0 <= c < 64 -> 0 <= d < 64 ->
  65535 < a * 262144 + b * 4096 + c * 64 + d <= maxRune ->
  encoderune (a * 262144 + b * 4096 + c * 64 + d)
  = String (chr (240 + a))
      (String (chr (128 + b))
         (String (chr (128 + c)) (String (chr (128 + d)) EmptyString))).
Proof.
  intros Ha Hb Hc Hd Hr. unfold encoderune.
  set (r := a * 262144 + b * 4096 + c * 64 + d) in *.
  rewrite uint32_small by lia.
  destruct (Z.leb_spec r rune1Max) as [Hle | _];
    [unfold rune1Max in Hle; lia |].
  destruct (Z.leb_spec r rune2Max) as [Hle | _];
    [unfold rune2Max in Hle; lia |].
  destruct (Z.ltb_spec maxRune r) as [Hlt | _]; [lia |].
  destruct (Z.leb_spec surrogateMin r) as [_ | Hlo];
    [| unfold surrogateMin in Hlo; lia].
  destruct (Z.leb_spec r surrogateMax) as [Hhi | _];
    [unfold surrogateMax in Hhi; lia |].
  cbn [orb andb].
  destruct (Z.leb_spec r rune3Max) as [Hle | _];
    [unfold rune3Max in Hle; lia |].
  unfold uint8. rewrite !land_maskx, !Z.shiftr_div_pow2 by lia.
  change (2 ^ 18) with 262144. change (2 ^ 12) with 4096.
  change (2 ^ 6) with 64.
  replace ((r / 262144) mod 256) with a by (subst r; divmod).
  replace (((r / 4096) mod 256) mod 64) with b by (subst r; divmod).
  replace (((r / 64) mod 256) mod 64) with c by (subst r; divmod).
  replace ((r mod 256) mod 64) with d by (subst r; divmod).
  rewrite lor_t4, !lor_tx by lia. reflexivity.
Qed.

Lemma cont_range (b : Z) : cont b = true -> 128 <= b < 192.
Proof.
  unfold cont, locb, hicb. intros H.
  apply andb_true_iff in H. destruct H as [H1 H2].
  apply Z.leb_le in H1. apply Z.leb_le in H2. lia.
Qed.

Lemma lead_range (lo hi b : Z) :
  (lo <=? b) && (b <? hi) = true -> lo <= b < hi.
Proof.
  intros H. apply andb_true_iff in H. destruct H as [H1 H2].
  apply Z.leb_le in H1. apply Z.ltb_lt in H2. lia.
Qed.

Ltac failed_decoding H Hok :=
  injection H as <- <-; cbv in Hok; discriminate Hok.

Lemma ValidRune_iff (r : rune) :
  ValidRune r = true
  <-> (0 <= r < surrogateMin \/ surrogateMax < r <= maxRune).
Proof.
  unfold ValidRune.
  rewrite orb_true_iff, !andb_true_iff, !Z.leb_le, !Z.ltb_lt. reflexivity.
Qed.

Ltac valid_rune :=
  apply ValidRune_iff; unfold surrogateMin, surrogateMax, maxRune in *; lia.

(** [decoderune] accepts a sequence only when it is the encoding of the
    rune it returns, and that rune is a valid one. *)
Lemma decoderune_sound (s : string) (r : rune) (w : nat) :
  decoderune s = (r, w) -> malformed r w = false ->
  ValidRune r = true /\ s = (encoderune r ++ drop w s)%string.
Proof.
  intros Hdec Hok. unfold decoderune in Hdec.
  destruct s as [| c0 s1]; [failed_decoding Hdec Hok |].
  destruct ((t2 <=? byteval c0) && (byteval c0 <? t3)) eqn:L2.
  { apply lead_range in L2. unfold t2, t3 in L2.
    destruct s1 as [| c1 s2]; [failed_decoding Hdec Hok |].
    destruct (cont (byteval c1)) eqn:C1; [| failed_decoding Hdec Hok].
    apply cont_range in C1.
    rewrite rune2_value in Hdec by assumption.
    destruct (Z.ltb_spec rune1Max
                ((byteval c0 - 192) * 64 + (byteval c1 - 128)))
      as [Hlt | _]; [| failed_decoding Hdec Hok].
    unfold rune1Max in Hlt.
    injection Hdec as <- <-.
    split; [valid_rune |].
    rewrite encoderune_2 by lia. cbn [drop append].
    f_equal; [| f_equal]; symmetry; apply chr_eq_of_byteval; lia. }
  destruct ((t3 <=? byteval c0) && (byteval c0 <? t4)) eqn:L3.
  { apply lead_range in L3. unfold t3, t4 in L3.
    destruct s1 as [| c1 [| c2 s3]]; try failed_decoding Hdec Hok.
    destruct (cont (byteval c1)) eqn:C1; [| failed_decoding Hdec Hok].
    destruct (cont (byteval c2)) eqn:C2; [| failed_decoding Hdec Hok].
    apply cont_range in C1. apply cont_range in C2.
    cbn [andb] in Hdec.
    rewrite rune3_value in Hdec by assumption.
    set (r3 := (byteval c0 - 224) * 4096 + (byteval c1 - 128) * 64
               + (byteval c2 - 128)) in *.
    destruct (Z.ltb_spec rune2Max r3) as [Hlt | _];
      [| failed_decoding Hdec Hok].
    destruct (Z.leb_spec surrogateMin r3) as [Hlo | Hlo];
      [destruct (Z.leb_spec r3 surrogateMax) as [Hhi | Hhi] |];
      cbn [andb negb] in Hdec; try failed_decoding Hdec Hok.
    all: unfold rune2Max in Hlt; injection Hdec as <- <-.
    all: subst r3; split; [valid_rune |].
    all: rewrite encoderune_3 by lia; cbn [drop append].
    all: f_equal; [| f_equal; [| f_equal]]; symmetry;
      apply chr_eq_of_byteval; lia. }
  destruct ((t4 <=? byteval c0) && (byteval c0 <? t5)) eqn:L4.
  { apply lead_range in L4. unfold t4, t5 in L4.
    destruct s1 as [| c1 [| c2 [| c3 s4]]]; try failed_decoding Hdec Hok.
    destruct (cont (byteval c1)) eqn:C1; [| failed_decoding Hdec Hok].
    destruct (cont (byteval c2)) eqn:C2; [| failed_decoding Hdec Hok].
    destruct (cont (byteval c3)) eqn:C3; [| failed_decoding Hdec Hok].
    apply cont_range in C1. apply cont_range in C2.
    apply cont_range in C3.
    cbn [andb] in Hdec.
    rewrite rune4_value in Hdec by assumption.
    set (r4 := (byteval c0 - 240) * 262144 + (byteval c1 - 128) * 4096
               + (byteval c2 - 128) * 64 + (byteval c3 - 128)) in *.
    destruct (Z.ltb_spec rune3Max r4) as [Hlt | _];
      [| failed_decoding Hdec Hok].
    destruct (Z.leb_spec r4 maxRune) as [Hle | _];
      [| failed_decoding Hdec Hok].
    unfold rune3Max in Hlt. cbn [andb] in Hdec.
    injection Hdec as <- <-.
    subst r4; split; [valid_rune |].
    rewrite encoderune_4 by lia; cbn [drop append].
    f_equal; [| f_equal; [| f_equal; [| f_equal]]]; symmetry;
      apply chr_eq_of_byteval; lia. }
  failed_decoding Hdec Hok.
Qed.

(** The same for the header of a [range] iteration. *)
Lemma rangeStep_sound (c : ascii) (s' : string) (r : rune) (w : nat) :
  rangeStep c s' = (r, w) -> malformed r w = false ->
  ValidRune r = true
  /\ String c s' = (runeString r ++ drop w (String c s'))%string.
Proof.
  unfold rangeStep, runeString. intros Hstep Hok.
  destruct (Z.ltb_spec (byteval c) runeSelf) as [Hlt | _].
  - injection Hstep as <- <-.
    pose proof (byteval_range c) as Hc. unfold runeSelf in Hlt.
    split; [valid_rune |].
    rewrite encoderune_1 by lia.
    rewrite chr_byteval. reflexivity.
  - apply decoderune_sound; assumption.
Qed.

Lemma rangeStep_encoderune (c : ascii) (s' : string) (r : rune) (w : nat) :
  rangeStep c s' = (r, w) -> malformed r w = false ->
  String c s' = (runeString r ++ drop w (String c s'))%string.
Proof. intros Hstep Hok. apply (rangeStep_sound c s' r w Hstep Hok). Qed.

(** Conversely, the encoding of a valid rune decodes to that rune. *)
Lemma decoderune_2 (a d : Z) (rest : string) :
  0 <= a < 32 -> 0 <= d < 64 -> 127 < a * 64 + d ->
  decoderune (String (chr (192 + a)) (String (chr (128 + d)) rest))
  = (a * 64 + d, 2%nat).
Proof.
  intros Ha Hd Hr. unfold decoderune.
  rewrite !byteval_chr by lia.
  replace ((t2 <=? 192 + a) && (192 + a <? t3)) with true
    by (symmetry; apply andb_true_iff; unfold t2, t3;
        split; [apply Z.leb_le | apply Z.ltb_lt]; lia).
  replace (cont (128 + d)) with true
    by (symmetry; apply andb_true_iff; unfold locb, hicb;
        split; apply Z.leb_le; lia).
  rewrite rune2_value by lia.
  replace ((192 + a - 192) * 64 + (128 + d - 128)) with (a * 64 + d) by lia.
  destruct (Z.ltb_spec rune1Max (a * 64 + d)) as [_ | Hle];
    [reflexivity | unfold rune1Max in Hle; lia].
Qed.

Lemma cont_true (d : Z) : 0 <= d < 64 -> cont (128 + d) = true.
Proof.
  intros Hd. apply andb_true_iff. unfold locb, hicb.
  split; apply Z.leb_le; lia.
Qed.

Lemma lead_false (lo hi b : Z) :
  b < lo \/ hi <= b -> (lo <=? b) && (b <? hi) = false.
Proof.
  intros H. apply andb_false_iff.
  destruct H; [left; apply Z.leb_gt | right; apply Z.ltb_ge]; lia.
Qed.

Lemma lead_true (lo hi b : Z) :
  lo <= b < hi -> (lo <=? b) && (b <? hi) = true.
Proof.
  intros H. apply andb_true_iff.
  split; [apply Z.leb_le | apply Z.ltb_lt]; lia.
Qed.

Lemma decoderune_3 (a b d : Z) (rest : string) :
  0 <= a < 16 -> 0 <= b < 64 -> 0 <= d < 64 ->
  2047 < a * 4096 + b * 64 + d ->
  ~ (surrogateMin <= a * 4096 + b * 64 + d <= surrogateMax) ->
  decoderune (String (chr (224 + a))
                (String (chr (128 + b)) (String (chr (128 + d)) rest)))
  = (a * 4096 + b * 64 + d, 3%nat).
Proof.
  intros Ha Hb Hd Hr Hs. unfold decoderune.
  rewrite !byteval_chr by lia.
  rewrite (lead_false t2 t3) by (unfold t2, t3; lia).
  rewrite (lead_true t3 t4) by (unfold t3, t4; lia).
  rewrite !cont_true by lia. cbn [andb].
  rewrite rune3_value by lia.
  replace ((224 + a - 224) * 4096 + (128 + b - 128) * 64 + (128 + d - 128))
    with (a * 4096 + b * 64 + d) by lia.
  set (r := a * 4096 + b * 64 + d) in *.
  destruct (Z.ltb_spec rune2Max r) as [_ | Hle];
    [| unfold rune2Max in Hle; lia].
  destruct (Z.leb_spec surrogateMin r) as [Hlo | Hlo];
    [destruct (Z.leb_spec r surrogateMax) as [Hhi | Hhi]; [lia |] |];
    reflexivity.
Qed.

Lemma decoderune_4 (a b c d : Z) (rest : string) :
  0 <= a < 8 -> 0 <= b < 64 -> 0 <= c < 64 -> 0 <= d < 64 ->
  65535 < a * 262144 + b * 4096 + c * 64 + d <= maxRune ->
  decoderune (String (chr (240 + a))
                (String (chr (128 + b))
                   (String (chr (128 + c)) (String (chr (128 + d)) rest))))
  = (a * 262144 + b * 4096 + c * 64 + d, 4%nat).
Proof.
  intros Ha Hb Hc Hd Hr. unfold decoderune.
  rewrite !byteval_chr by lia.
  rewrite (lead_false t2 t3) by (unfold t2, t3; lia).
  rewrite (lead_false t3 t4) by (unfold t3, t4; lia).
  rewrite (lead_true t4 t5) by (unfold t4, t5; lia).
  rewrite !cont_true by lia. cbn [andb].
  rewrite rune4_value by lia.
  replace ((240 + a - 240) * 262144 + (128 + b - 128) * 4096
           + (128 + c - 128) * 64 + (128 + d - 128))
    with (a * 262144 + b * 4096 + c * 64 + d) by lia.
  set (r := a * 262144 + b * 4096 + c * 64 + d) in *.
  destruct (Z.ltb_spec rune3Max r) as [_ | Hle];
    [| unfold rune3Max in Hle; lia].
  destruct (Z.leb_spec r maxRune) as [_ | Hgt]; [reflexivity | lia].
Qed.

(** The header of a [range] iteration on the encoding of a valid rune,
    whatever follows it: the rune, and the length of its encoding. *)
Lemma rangeStep_complete (r : rune) (rest : string) :
  ValidRune r = true ->
  exists c s0,
    encoderune r = String c s0
    /\ rangeStep c (s0 ++ rest) = (r, String.length (encoderune r))
    /\ malformed r (String.length (encoderune r)) = false.
Proof.
  intros Hvalid. apply ValidRune_iff in Hvalid.
  unfold surrogateMin, surrogateMax, maxRune in Hvalid.
  destruct (Z.lt_ge_cases r 128) as [H1 | H1].
  { rewrite encoderune_1 by lia.
    eexists _, _. split; [reflexivity |]. cbn [append String.length].
    unfold rangeStep. rewrite byteval_chr by lia.
    destruct (Z.ltb_spec r runeSelf) as [_ | Hge];
      [| unfold runeSelf in Hge; lia].
    split; [reflexivity |].
    unfold malformed. replace (r =? runeError) with false; [reflexivity |].
    symmetry. apply Z.eqb_neq. unfold runeError. lia. }
  destruct (Z.le_gt_cases r 2047) as [H2 | H2].
  { assert (Hex : exists a d, 0 <= a < 32 /\ 0 <= d < 64 /\ r = a * 64 + d)
      by (exists (r / 64), (r mod 64); divmod).
    destruct Hex as (a & d & Ha & Hd & ->).
    rewrite encoderune_2 by lia.
    eexists _, _. split; [reflexivity |]. cbn [append String.length].
    unfold rangeStep. rewrite byteval_chr by lia.
    destruct (Z.ltb_spec (192 + a) runeSelf) as [Hlt | _];
      [unfold runeSelf in Hlt; lia |].
    rewrite decoderune_2 by lia.
    split; [reflexivity |].
    unfold malformed. apply andb_false_iff. right. reflexivity. }
  destruct (Z.le_gt_cases r 65535) as [H3 | H3].
  { assert (Hex : exists a b d,
               0 <= a < 16 /\ 0 <= b < 64 /\ 0 <= d < 64
               /\ r = a * 4096 + b * 64 + d)
      by (exists (r / 4096), ((r / 64) mod 64), (r mod 64); divmod).
    destruct Hex as (a & b & d & Ha & Hb & Hd & ->).
    rewrite encoderune_3 by (unfold surrogateMin, surrogateMax; lia).
    eexists _, _. split; [reflexivity |]. cbn [append String.length].
    unfold rangeStep. rewrite byteval_chr by lia.
    destruct (Z.ltb_spec (224 + a) runeSelf) as [Hlt | _];
      [unfold runeSelf in Hlt; lia |].
    rewrite decoderune_3 by (unfold surrogateMin, surrogateMax; lia).
    split; [reflexivity |].
    unfold malformed. apply andb_false_iff. right. reflexivity. }
  assert (Hex : exists a b c d,
             0 <= a < 8 /\ 0 <= b < 64 /\ 0 <= c < 64 /\ 0 <= d < 64
             /\ r = a * 262144 + b * 4096 + c * 64 + d)
    by (exists (r / 262144), ((r / 4096) mod 64), ((r / 64) mod 64),
          (r mod 64); divmod).
  destruct Hex as (a & b & c & d & Ha & Hb & Hc & Hd & ->).
  rewrite encoderune_4 by (unfold maxRune; lia).
  eexists _, _. split; [reflexivity |]. cbn [append String.length].
  unfold rangeStep. rewrite byteval_chr by lia.
  destruct (Z.ltb_spec (240 + a) runeSelf) as [Hlt | _];
    [unfold runeSelf in Hlt; lia |].
  rewrite decoderune_4 by (unfold maxRune; lia).
  split; [reflexivity |].
  unfold malformed. apply andb_false_iff. right. reflexivity.
Qed.

Lemma decoderune_width (s : string) : (1 <= snd (decoderune s))%nat.
Proof.
  unfold decoderune.
  repeat match goal with
         | |- context [match ?x with _ => _ end] => destruct x
         end; cbn [snd]; lia.
Qed.

Lemma rangeStep_width (c : ascii) (s' : string) :
  (1 <= snd (rangeStep c s'))%nat.
Proof.
  unfold rangeStep.
  destruct (byteval c <? runeSelf); [cbn [snd]; lia |].
  apply decoderune_width.
Qed.

End DecodeEncode.

(** ** Strings *)

Section StringFacts.

Lemma append_nil_r (s : string) : (s ++ "")%string = s.
Proof. induction s as [| c s IH]; cbn; [| rewrite IH]; reflexivity. Qed.

Lemma append_assoc (a b c : string) :
  ((a ++ b) ++ c)%string = (a ++ (b ++ c))%string.
Proof. induction a as [| x a IH]; cbn; [| rewrite IH]; reflexivity. Qed.

Lemma length_append (a b : string) :
  String.length (a ++ b) = (String.length a + String.length b)%nat.
Proof. induction a as [| x a IH]; cbn; [| rewrite IH]; reflexivity. Qed.

Lemma length_drop (n : nat) (s : string) :
  String.length (drop n s) = (String.length s - n)%nat.
Proof.
  revert s. induction n as [| n IH]; intros s.
  - cbn. lia.
  - destruct s as [| c s]; cbn; [reflexivity | apply IH].
Qed.

Lemma append_eq_nil (a b : string) : (a ++ b)%string = "" -> a = "" /\ b = "".
Proof. destruct a; cbn; intros H; [auto | discriminate H]. Qed.

Lemma drop_length_append (a b : string) :
  drop (String.length a) (a ++ b)%string = b.
Proof. induction a as [| x a IH]; cbn; [reflexivity | exact IH]. Qed.

End StringFacts.

(** ** What a [range] loop sees, encoded again *)

Section RangeFacts.

Lemma encodeRunes_app (xs ys : list rune) :
  encodeRunes (xs ++ ys) = (encodeRunes xs ++ encodeRunes ys)%string.
Proof.
  induction xs as [| x xs IH]; cbn; [reflexivity |].
  rewrite IH, append_assoc. reflexivity.
Qed.

Lemma encoderune_nonempty (r : rune) : encoderune r <> "".
Proof.
  unfold encoderune.
  repeat match goal with
         | |- context [if ?b then _ else _] => destruct b
         end; discriminate.
Qed.

Lemma encodeRunes_nil_iff (rs : list rune) : encodeRunes rs = "" <-> rs = [].
Proof.
  split; [| intros ->; reflexivity].
  destruct rs as [| r rs]; [reflexivity |]. cbn. intros H.
  apply append_eq_nil in H. destruct H as [H _].
  exfalso. exact (encoderune_nonempty r H).
Qed.

Lemma drop_step_length (c : ascii) (s' : string) (r : rune) (w fuel : nat) :
  rangeStep c s' = (r, w) ->
  (String.length (String c s') <= S fuel)%nat ->
  (String.length (drop w (String c s')) <= fuel)%nat.
Proof.
  intros Hstep Hlen.
  pose proof (rangeStep_width c s') as Hw. rewrite Hstep in Hw.
  cbn [snd] in Hw. rewrite length_drop. lia.
Qed.

(** The loop ends at the end of the string, not for want of fuel: any
    number of iterations from [String.length s] on gives the same runes. *)
Lemma rangeFrom_fuel (fuel1 : nat) :
  forall fuel2 s,
    (String.length s <= fuel1)%nat -> (String.length s <= fuel2)%nat ->
    rangeFrom fuel1 s = rangeFrom fuel2 s.
Proof.
  induction fuel1 as [| fuel1 IH]; intros fuel2 s H1 H2.
  - destruct s; [destruct fuel2; reflexivity | cbn in H1; lia].
  - destruct s as [| c s']; [destruct fuel2; reflexivity |].
    destruct fuel2 as [| fuel2]; [cbn in H2; lia |].
    cbn [rangeFrom].
    destruct (rangeStep c s') as [r w] eqn:Hstep.
    f_equal. apply IH; eapply drop_step_length; eassumption.
Qed.

Lemma validFrom_fuel (fuel1 : nat) :
  forall fuel2 s,
    (String.length s <= fuel1)%nat -> (String.length s <= fuel2)%nat ->
    validFrom fuel1 s = validFrom fuel2 s.
Proof.
  induction fuel1 as [| fuel1 IH]; intros fuel2 s H1 H2.
  - destruct s; [destruct fuel2; reflexivity | cbn in H1; lia].
  - destruct s as [| c s']; [destruct fuel2; reflexivity |].
    destruct fuel2 as [| fuel2]; [cbn in H2; lia |].
    cbn [validFrom].
    destruct (rangeStep c s') as [r w] eqn:Hstep.
    f_equal. apply IH; eapply drop_step_length; eassumption.
Qed.

(** On valid UTF-8 the runes of the loop encode back to the string. *)
Lemma rangeFrom_encodeRunes (fuel : nat) :
  forall s, (String.length s <= fuel)%nat -> validFrom fuel s = true ->
            encodeRunes (rangeFrom fuel s) = s.
Proof.
  induction fuel as [| fuel IH]; intros s Hlen Hvalid.
  - destruct s; [reflexivity | cbn in Hlen; lia].
  - destruct s as [| c s']; [reflexivity |].
    cbn [rangeFrom validFrom] in *.
    destruct (rangeStep c s') as [r w] eqn:Hstep.
    apply andb_true_iff in Hvalid. destruct Hvalid as [Hok Hvalid].
    apply negb_true_iff in Hok.
    cbn [encodeRunes]. rewrite IH.
    + symmetry. apply rangeStep_encoderune; assumption.
    + eapply drop_step_length; eassumption.
    + exact Hvalid.
Qed.

Lemma rangeRunes_encodeRunes (s : string) :
  ValidString s = true -> encodeRunes (rangeRunes s) = s.
Proof. apply rangeFrom_encodeRunes. lia. Qed.

(** On valid UTF-8 the loop sees valid runes only. *)
Lemma rangeFrom_valid_runes (fuel : nat) :
  forall s, (String.length s <= fuel)%nat -> validFrom fuel s = true ->
            Forall (fun r => ValidRune r = true) (rangeFrom fuel s).
Proof.
  induction fuel as [| fuel IH]; intros s Hlen Hvalid; [constructor |].
  destruct s as [| c s']; [constructor |].
  cbn [rangeFrom validFrom] in *.
  destruct (rangeStep c s') as [r w] eqn:Hstep.
  apply andb_true_iff in Hvalid. destruct Hvalid as [Hok Hvalid].
  apply negb_true_iff in Hok.
  constructor.
  - apply (rangeStep_sound c s' r w Hstep Hok).
  - apply IH; [eapply drop_step_length; eassumption | exact Hvalid].
Qed.

(** The encoding of valid runes is valid UTF-8, and the loop reads the
    runes back. *)
Lemma rangeFrom_complete (rs : list rune) :
  Forall (fun r => ValidRune r = true) rs ->
  forall fuel,
    (String.length (encodeRunes rs) <= fuel)%nat ->
    rangeFrom fuel (encodeRunes rs) = rs
    /\ validFrom fuel (encodeRunes rs) = true.
Proof.
  induction 1 as [| r rs Hr _ IH]; intros fuel Hlen.
  - destruct fuel; split; reflexivity.
  - cbn [encodeRunes] in *. unfold runeString in *.
    destruct (rangeStep_complete r (encodeRunes rs) Hr)
      as (c & s0 & Henc & Hstep & Hok).
    pose proof (drop_length_append (encoderune r) (encodeRunes rs)) as Hdrop.
    rewrite length_append in Hlen.
    remember (String.length (encoderune r)) as w eqn:Hw.
    rewrite Henc in Hw, Hdrop |- *. cbn [append String.length] in *.
    destruct fuel as [| fuel]; [lia |].
    cbn [rangeFrom validFrom].
    rewrite Hstep, Hok, Hdrop.
    destruct (IH fuel ltac:(lia)) as [IHr IHv].
    rewrite IHr, IHv. split; reflexivity.
Qed.

(** The valid strings are the encodings of sequences of valid runes. *)
Lemma ValidString_iff (s : string) :
  ValidString s = true
  <-> exists rs, Forall (fun r => ValidRune r = true) rs /\ s = encodeRunes rs.
Proof.
  split.
  - intros Hvalid. exists (rangeRunes s). split.
    + apply rangeFrom_valid_runes; [lia | exact Hvalid].
    + symmetry. apply rangeRunes_encodeRunes. exact Hvalid.
  - intros (rs & Hrs & ->).
    apply (rangeFrom_complete rs Hrs). lia.
Qed.

(** Encoding the runes of the loop never shortens the string, and
    lengthens it as soon as one sequence is malformed: [runeError] takes
    three bytes where one byte was read. *)
Lemma rangeFrom_length (fuel : nat) :
  forall s, (String.length s <= fuel)%nat ->
            (String.length s <= String.length (encodeRunes (rangeFrom fuel s))
             /\ (validFrom fuel s = false ->
                 String.length s
                 < String.length (encodeRunes (rangeFrom fuel s))))%nat.
Proof.
  induction fuel as [| fuel IH]; intros s Hlen.
  - destruct s; [| cbn in Hlen; lia]. cbn. split; [lia | discriminate].
  - destruct s as [| c s']; [cbn; split; [lia | discriminate] |].
    cbn [rangeFrom validFrom].
    destruct (rangeStep c s') as [r w] eqn:Hstep.
    pose proof (drop_step_length _ _ _ _ _ Hstep Hlen) as Hdrop.
    destruct (IH _ Hdrop) as [IHle IHlt].
    cbn [encodeRunes]. rewrite length_append.
    destruct (malformed r w) eqn:Hbad; cbn [negb andb].
    + unfold malformed in Hbad. apply andb_true_iff in Hbad.
      destruct Hbad as [Hr Hw].
      apply Z.eqb_eq in Hr. apply Nat.eqb_eq in Hw. subst r w.
      cbn [drop] in *. change (String.length (runeString runeError)) with 3%nat.
      cbn [String.length]. split; [lia | intros _; lia].
    + pose proof (rangeStep_encoderune _ _ _ _ Hstep Hbad) as Hsplit.
      apply (f_equal String.length) in Hsplit.
      rewrite length_append in Hsplit.
      split; [lia | intros Hinv; specialize (IHlt Hinv); lia].
Qed.

Lemma rangeRunes_encodeRunes_valid (s : string) :
  encodeRunes (rangeRunes s) = s -> ValidString s = true.
Proof.
  intros Heq. unfold ValidString.
  destruct (validFrom (String.length s) s) eqn:Hvalid; [reflexivity |].
  destruct (rangeFrom_length (String.length s) s (le_n _)) as [_ Hlt].
  specialize (Hlt Hvalid). fold (rangeRunes s) in Hlt.
  rewrite Heq in Hlt. lia.
Qed.

End RangeFacts.

(** ** The tokenizer *)

Section Tokenizer.

Variable kws : list string.

Lemma joinTexts_app (xs ys : list Token) :
  joinTexts (xs ++ ys) = (joinTexts xs ++ joinTexts ys)%string.
Proof.
  induction xs as [| x xs IH]; cbn; [reflexivity |].
  rewrite IH, append_assoc. reflexivity.
Qed.

Lemma joinTexts_flush (token : string) (result : list Token) :
  joinTexts (flush kws token result) = (joinTexts result ++ token)%string.
Proof.
  unfold flush. destruct (String.eqb_spec token "") as [-> | _]; cbn [negb].
  - rewrite append_nil_r. reflexivity.
  - rewrite joinTexts_app. cbn. rewrite append_nil_r. reflexivity.
Qed.

(** The loop keeps every rune it has read, either in [result] or in the
    pending [token]. *)
Lemma scan_keeps_text (rs : list rune) :
  forall token result token' result',
    fold_left (scanStep kws) rs (token, result) = (token', result') ->
    (joinTexts result' ++ token')%string
    = (joinTexts result ++ token ++ encodeRunes rs)%string.
Proof.
  induction rs as [| r rs IH]; intros token result token' result' Hrun.
  - cbn in Hrun. injection Hrun as <- <-. cbn.
    rewrite append_nil_r. reflexivity.
  - cbn [fold_left] in Hrun. unfold scanStep at 2 in Hrun.
    destruct (ContainsRune separators r).
    + apply IH in Hrun. rewrite Hrun.
      rewrite joinTexts_app, joinTexts_flush. cbn.
      rewrite !append_assoc. reflexivity.
    + apply IH in Hrun. rewrite Hrun.
      cbn. rewrite !append_assoc. reflexivity.
Qed.

(** The texts of the tokens are the runes of the input, encoded again:
    this holds for every input. *)
Lemma splitByKeywords_texts (content : string) :
  joinTexts (splitByKeywords content kws) = encodeRunes (rangeRunes content).
Proof.
  unfold splitByKeywords.
  destruct (fold_left (scanStep kws) (rangeRunes content) ("", []))
    as [token result] eqn:Hrun.
  apply scan_keeps_text in Hrun.
  rewrite joinTexts_flush, Hrun. reflexivity.
Qed.

End Tokenizer.

(** ** Separators are single bytes *)

Section SeparatorFacts.

Lemma HasPrefix_head (a c : ascii) (s' rest : string) :
  HasPrefix (String a s') (String c rest) = true -> a = c.
Proof.
  unfold HasPrefix. cbn [String.length take String.eqb].
  intros H. apply andb_true_iff in H. destruct H as [_ H].
  destruct (Ascii.eqb_spec a c) as [-> | _]; [reflexivity | discriminate H].
Qed.

Lemma hasSubstr_head (s : string) (c : ascii) (rest : string) :
  hasSubstr s (String c rest) = true -> In c (list_ascii_of_string s).
Proof.
  induction s as [| a s' IH]; cbn [hasSubstr]; intros H.
  - rewrite orb_false_r in H. unfold HasPrefix in H. cbn in H.
    discriminate H.
  - apply orb_true_iff in H. destruct H as [H | H].
    + left. eapply HasPrefix_head. exact H.
    + right. apply IH. exact H.
Qed.

(** The encoding of a rune from [runeSelf] on starts with a lead byte. *)
Lemma encoderune_lead (r : rune) :
  128 <= r -> ValidRune r = true ->
  exists c rest, encoderune r = String c rest /\ 192 <= byteval c.
Proof.
  intros Hlo Hvalid.
  assert (Hhi : r <= maxRune).
  { unfold ValidRune in Hvalid. apply orb_true_iff in Hvalid.
    destruct Hvalid as [H | H]; apply andb_true_iff in H;
      destruct H as [H1 H2].
    - apply Z.ltb_lt in H2. unfold surrogateMin, maxRune in *. lia.
    - apply Z.leb_le in H2. exact H2. }
  unfold encoderune, maxRune in *.
  rewrite uint32_small by (unfold maxRune; lia).
  destruct (Z.leb_spec r rune1Max) as [H1 | _];
    [unfold rune1Max in H1; lia |].
  destruct (Z.leb_spec r rune2Max) as [H2 | H2].
  { eexists _, _. split; [reflexivity |].
    unfold uint8, rune2Max in *. rewrite Z.shiftr_div_pow2 by lia.
    change (2 ^ 6) with 64.
    assert (Hq : 0 <= (r / 64) mod 256 < 32) by divmod.
    rewrite lor_t2 by exact Hq. rewrite byteval_chr; lia. }
  destruct ((1114111 <? r) || ((surrogateMin <=? r) && (r <=? surrogateMax))).
  { eexists _, _. split; [reflexivity |]. vm_compute. discriminate. }
  destruct (Z.leb_spec r rune3Max) as [H3 | H3].
  { eexists _, _. split; [reflexivity |].
    unfold uint8, rune3Max in *. rewrite Z.shiftr_div_pow2 by lia.
    change (2 ^ 12) with 4096.
    assert (Hq : 0 <= (r / 4096) mod 256 < 16) by divmod.
    rewrite lor_t3 by exact Hq. rewrite byteval_chr; lia. }
  eexists _, _. split; [reflexivity |].
  unfold uint8. rewrite Z.shiftr_div_pow2 by lia.
  change (2 ^ 18) with 262144.
  assert (Hq : 0 <= (r / 262144) mod 256 < 8) by divmod.
  rewrite lor_t4 by exact Hq. rewrite byteval_chr; lia.
Qed.

(** A string of bytes below [runeSelf] contains only the runes of its
    bytes. *)
Lemma ContainsRune_ascii (s : string) (r : rune) :
  Forall (fun c => byteval c < 128) (list_ascii_of_string s) ->
  existsb (Z.eqb runeError) (rangeRunes s) = false ->
  ContainsRune s r = true ->
  0 <= r < 128 /\ hasByte s r = true.
Proof.
  intros Hascii Hnoerr. unfold ContainsRune.
  destruct ((0 <=? r) && (r <? runeSelf)) eqn:Hself.
  { apply lead_range in Hself. unfold runeSelf in Hself.
    unfold uint8. rewrite Z.mod_small by lia. auto. }
  destruct (r =? runeError); [rewrite Hnoerr; discriminate |].
  destruct (ValidRune r) eqn:Hvalid; cbn [negb]; [| discriminate].
  intros Hsub. exfalso.
  assert (Hlo : 128 <= r).
  { unfold ValidRune in Hvalid. apply orb_true_iff in Hvalid.
    apply andb_false_iff in Hself. unfold runeSelf in Hself.
    destruct Hvalid as [H | H]; apply andb_true_iff in H;
      destruct H as [H1 H2].
    - apply Z.leb_le in H1.
      destruct Hself as [H | H]; [apply Z.leb_gt in H | apply Z.ltb_ge in H];
        lia.
    - apply Z.ltb_lt in H1. unfold surrogateMax in H1. lia. }
  destruct (encoderune_lead r Hlo Hvalid) as (c & rest & Henc & Hc).
  unfold runeString in Hsub. rewrite Henc in Hsub.
  apply hasSubstr_head in Hsub.
  rewrite Forall_forall in Hascii. specialize (Hascii c Hsub). lia.
Qed.

Lemma hasByte_In (s : string) (x : Z) :
  hasByte s x = true <-> In x (map byteval (list_ascii_of_string s)).
Proof.
  induction s as [| a s' IH]; cbn [hasByte list_ascii_of_string map In].
  - split; [discriminate | contradiction].
  - rewrite orb_true_iff, Z.eqb_eq, IH. reflexivity.
Qed.

(** The runes [ContainsRune] finds in [separators] are exactly the ten
    code points of its bytes. *)
Lemma separator_runes (r : rune) :
  ContainsRune separators r = true <-> In r separatorRunes.
Proof.
  split.
  - intros H. apply ContainsRune_ascii in H.
    + destruct H as [_ H]. apply hasByte_In in H. exact H.
    + repeat constructor.
    + reflexivity.
  - intros H. cbn in H.
    repeat (destruct H as [<- | H]; [reflexivity |]).
    contradiction.
Qed.

(** The text of a separator token is one byte. *)
Lemma separator_text (r : rune) :
  ContainsRune separators r = true -> runeString r = String (chr r) "".
Proof.
  intros H. apply separator_runes in H. cbn in H.
  repeat (destruct H as [<- | H]; [reflexivity |]).
  contradiction.
Qed.

End SeparatorFacts.

(** ** The shape of the token sequence *)

Section Chunks.

Variable kws : list string.

Lemma flush_pending (cur : list rune) (result : list Token) :
  flush kws (encodeRunes cur) result
  = result ++ map (tokenOf kws) (pending cur).
Proof.
  unfold flush.
  destruct (String.eqb_spec (encodeRunes cur) "") as [Heq | Hne].
  - apply encodeRunes_nil_iff in Heq. subst cur. cbn.
    rewrite app_nil_r. reflexivity.
  - destruct cur as [| r cur]; [contradiction Hne; reflexivity |].
    reflexivity.
Qed.

(** The loop and the final flush emit the tokens of [chunksFrom]. *)
Lemma scan_chunks (rs : list rune) :
  forall cur result token' result',
    fold_left (scanStep kws) rs (encodeRunes cur, result)
    = (token', result') ->
    flush kws token' result'
    = result ++ map (tokenOf kws) (chunksFrom cur rs).
Proof.
  induction rs as [| r rs IH]; intros cur result token' result' Hrun.
  - cbn in Hrun. injection Hrun as <- <-. apply flush_pending.
  - cbn [fold_left] in Hrun. unfold scanStep at 2 in Hrun.
    cbn [chunksFrom].
    destruct (ContainsRune separators r).
    + change "" with (encodeRunes []) in Hrun.
      apply IH in Hrun. rewrite Hrun, flush_pending.
      rewrite map_app, <- !app_assoc. reflexivity.
    + rewrite <- (append_nil_r (runeString r)) in Hrun.
      change (runeString r ++ "")%string with (encodeRunes [r]) in Hrun.
      rewrite <- encodeRunes_app in Hrun.
      apply IH in Hrun. exact Hrun.
Qed.

Lemma splitByKeywords_chunks (content : string) :
  splitByKeywords content kws
  = map (tokenOf kws) (chunksFrom [] (rangeRunes content)).
Proof.
  unfold splitByKeywords.
  destruct (fold_left (scanStep kws) (rangeRunes content) ("", []))
    as [token result] eqn:Hrun.
  change "" with (encodeRunes []) in Hrun.
  apply scan_chunks in Hrun. exact Hrun.
Qed.

Lemma pending_runes (cur : list rune) :
  flat_map chunkRunes (pending cur) = cur.
Proof. destruct cur; cbn; [| rewrite app_nil_r]; reflexivity. Qed.

(** The chunks are the runes, in order, each once. *)
Lemma chunksFrom_runes (rs : list rune) :
  forall cur, flat_map chunkRunes (chunksFrom cur rs) = cur ++ rs.
Proof.
  induction rs as [| r rs IH]; intros cur; cbn [chunksFrom].
  - rewrite pending_runes, app_nil_r. reflexivity.
  - destruct (ContainsRune separators r).
    + rewrite flat_map_app, pending_runes. cbn. rewrite IH. reflexivity.
    + rewrite IH, <- app_assoc. reflexivity.
Qed.

Lemma pending_ok (cur : list rune) :
  Forall (fun r => ContainsRune separators r = false) cur ->
  Forall chunkOk (pending cur).
Proof.
  intros Hcur. destruct cur as [| r cur]; cbn; constructor; [| constructor].
  split; [discriminate | exact Hcur].
Qed.

Lemma chunksFrom_ok (rs : list rune) :
  forall cur,
    Forall (fun r => ContainsRune separators r = false) cur ->
    Forall chunkOk (chunksFrom cur rs).
Proof.
  induction rs as [| r rs IH]; intros cur Hcur; cbn [chunksFrom].
  - apply pending_ok. exact Hcur.
  - destruct (ContainsRune separators r) eqn:Hsep.
    + apply Forall_app. split; [apply pending_ok; exact Hcur |].
      constructor.
      * split; [exact Hsep | apply separator_text; exact Hsep].
      * apply IH. constructor.
    + apply IH. apply Forall_app. split; [exact Hcur |].
      constructor; [exact Hsep | constructor].
Qed.

Lemma runsMaximal_pending_sep (cur : list rune) (r : rune)
      (cs : list chunk) :
  runsMaximal cs -> runsMaximal (pending cur ++ Sep r :: cs).
Proof.
  intros Hcs.
  assert (Hsep : runsMaximal (Sep r :: cs)).
  { cbn. split; [destruct cs; reflexivity || exact I | exact Hcs]. }
  destruct cur as [| x cur]; [exact Hsep |].
  cbn [pending app]. split; [reflexivity | exact Hsep].
Qed.

Lemma chunksFrom_maximal (rs : list rune) :
  forall cur, runsMaximal (chunksFrom cur rs).
Proof.
  induction rs as [| r rs IH]; intros cur; cbn [chunksFrom].
  - destruct cur; cbn; auto.
  - destruct (ContainsRune separators r).
    + apply runsMaximal_pending_sep. apply IH.
    + apply IH.
Qed.

End Chunks.

(** ** Bytes below [runeSelf] are never swallowed by a decoding *)

Section AsciiBytes.

Ltac peel_bytes Hin :=
  cbn [drop list_ascii_of_string In] in Hin |- *;
  repeat (destruct Hin as [Hin | Hin]; [subst; lia |]);
  tauto.

Lemma decoderune_skips (c0 : ascii) (s1 : string) (r : rune) (w : nat)
      (c : ascii) :
  decoderune (String c0 s1) = (r, w) ->
  128 <= byteval c0 -> byteval c < 128 ->
  In c (list_ascii_of_string (String c0 s1)) ->
  In c (list_ascii_of_string (drop w (String c0 s1))).
Proof.
  intros Hdec H0 Hc Hin. unfold decoderune in Hdec.
  destruct ((t2 <=? byteval c0) && (byteval c0 <? t3)).
  { destruct s1 as [| c1 s2]; [injection Hdec as <- <-; peel_bytes Hin |].
    destruct (cont (byteval c1)) eqn:C1;
      [| injection Hdec as <- <-; peel_bytes Hin].
    apply cont_range in C1.
    destruct (rune1Max <? _); injection Hdec as <- <-; peel_bytes Hin. }
  destruct ((t3 <=? byteval c0) && (byteval c0 <? t4)).
  { destruct s1 as [| c1 [| c2 s3]];
      try (injection Hdec as <- <-; peel_bytes Hin).
    destruct (cont (byteval c1)) eqn:C1;
      [| injection Hdec as <- <-; peel_bytes Hin].
    destruct (cont (byteval c2)) eqn:C2;
      [| injection Hdec as <- <-; peel_bytes Hin].
    apply cont_range in C1. apply cont_range in C2. cbn [andb] in Hdec.
    destruct (_ && _); injection Hdec as <- <-; peel_bytes Hin. }
  destruct ((t4 <=? byteval c0) && (byteval c0 <? t5)).
  { destruct s1 as [| c1 [| c2 [| c3 s4]]];
      try (injection Hdec as <- <-; peel_bytes Hin).
    destruct (cont (byteval c1)) eqn:C1;
      [| injection Hdec as <- <-; peel_bytes Hin].
    destruct (cont (byteval c2)) eqn:C2;
      [| injection Hdec as <- <-; peel_bytes Hin].
    destruct (cont (byteval c3)) eqn:C3;
      [| injection Hdec as <- <-; peel_bytes Hin].
    apply cont_range in C1. apply cont_range in C2. apply cont_range in C3.
    cbn [andb] in Hdec.
    destruct (_ && _); injection Hdec as <- <-; peel_bytes Hin. }
  injection Hdec as <- <-; peel_bytes Hin.
Qed.

(** Every byte below [runeSelf] of the input is a rune of the loop. *)
Lemma rangeFrom_ascii_byte (c : ascii) (fuel : nat) :
  byteval c < 128 ->
  forall s, (String.length s <= fuel)%nat ->
            In c (list_ascii_of_string s) ->
            In (byteval c) (rangeFrom fuel s).
Proof.
  intros Hc. induction fuel as [| fuel IH]; intros s Hlen Hin.
  - destruct s; [contradiction Hin | cbn in Hlen; lia].
  - destruct s as [| c0 s1]; [contradiction Hin |].
    cbn [rangeFrom].
    destruct (rangeStep c0 s1) as [r w] eqn:Hstep.
    pose proof (drop_step_length _ _ _ _ _ Hstep Hlen) as Hdrop.
    unfold rangeStep in Hstep.
    destruct (Z.ltb_spec (byteval c0) runeSelf) as [Hlt | Hge].
    + injection Hstep as <- <-.
      destruct Hin as [-> | Hin]; [left; reflexivity | right].
      apply IH; assumption.
    + right. apply IH; [exact Hdrop |].
      unfold runeSelf in Hge.
      eapply decoderune_skips; eassumption.
Qed.

Lemma rangeRunes_ascii_byte (c : ascii) (s : string) :
  byteval c < 128 -> In c (list_ascii_of_string s) ->
  In (byteval c) (rangeRunes s).
Proof. intros Hc Hin. apply rangeFrom_ascii_byte; [exact Hc | lia | exact Hin]. Qed.

End AsciiBytes.

Section TokenFacts.

Variable kws : list string.

Lemma chunksFrom_separator (r : rune) (rs : list rune) :
  ContainsRune separators r = true -> In r rs ->
  forall cur, In (Sep r) (chunksFrom cur rs).
Proof.
  intros Hsep. induction rs as [| x rs IH]; intros Hin cur;
    [contradiction Hin |].
  cbn [chunksFrom]. destruct Hin as [-> | Hin].
  - rewrite Hsep. apply in_or_app. right. left. reflexivity.
  - destruct (ContainsRune separators x).
    + apply in_or_app. right. right. apply IH. exact Hin.
    + apply IH. exact Hin.
Qed.

(** A separator rune of the input is emitted as a token of its own. *)
Lemma splitByKeywords_separator (content : string) (r : rune) :
  ContainsRune separators r = true -> In r (rangeRunes content) ->
  In {| Text := runeString r; IsKeyword := false |}
     (splitByKeywords content kws).
Proof.
  intros Hsep Hin. rewrite splitByKeywords_chunks.
  change {| Text := runeString r; IsKeyword := false |}
    with (tokenOf kws (Sep r)).
  apply in_map. apply chunksFrom_separator; assumption.
Qed.

(** Every token is the token of a well-formed chunk. *)
Lemma splitByKeywords_token (content : string) (part : Token) :
  In part (splitByKeywords content kws) ->
  exists c, chunkOk c /\ part = tokenOf kws c.
Proof.
  rewrite splitByKeywords_chunks. intros Hin.
  apply in_map_iff in Hin. destruct Hin as (c & <- & Hin).
  exists c. split; [| reflexivity].
  pose proof (chunksFrom_ok (rangeRunes content) [] (Forall_nil _)) as Hok.
  rewrite Forall_forall in Hok. apply Hok. exact Hin.
Qed.

Lemma classifyLoop_In (token : string) :
  classifyLoop token kws false = true <-> In token kws.
Proof.
  induction kws as [| k ks IH]; cbn [classifyLoop In].
  - split; [discriminate | contradiction].
  - destruct (String.eqb_spec token k) as [-> | Hne].
    + split; auto.
    + rewrite IH. split; [auto | intros [Heq | H]; [congruence | exact H]].
Qed.

(** An input of separators only gives separator tokens only. *)
Lemma chunksFrom_only_separators (rs : list rune) :
  Forall (fun r => ContainsRune separators r = true) rs ->
  chunksFrom [] rs = map Sep rs.
Proof.
  induction 1 as [| r rs Hr _ IH]; cbn [chunksFrom map]; [reflexivity |].
  rewrite Hr, IH. reflexivity.
Qed.

Lemma splitByKeywords_only_separators (content : string) :
  Forall (fun r => ContainsRune separators r = true) (rangeRunes content) ->
  splitByKeywords content kws
  = map (fun r => {| Text := String (chr r) ""; IsKeyword := false |})
        (rangeRunes content).
Proof.
  intros Hsep. rewrite splitByKeywords_chunks.
  rewrite chunksFrom_only_separators by exact Hsep.
  rewrite map_map. apply map_ext_in. intros r Hr.
  rewrite Forall_forall in Hsep. cbn [tokenOf].
  rewrite separator_text by (apply Hsep; exact Hr). reflexivity.
Qed.

(** The tokenizer is lossless exactly on valid UTF-8. *)
Lemma splitByKeywords_lossless_iff (content : string) :
  joinTexts (splitByKeywords content kws) = content
  <-> ValidString content = true.
Proof.
  rewrite splitByKeywords_texts. split.
  - apply rangeRunes_encodeRunes_valid.
  - apply rangeRunes_encodeRunes.
Qed.

End TokenFacts.

(** ** The stylist *)

Section StylistFacts.

Variables FontT SizeT MetadataT : Type.

Local Abbreviation Span := (SpanStyle FontT SizeT MetadataT).

Lemma style_loop (span : Span) (th : Theme) (parts : list Token) :
  forall acc,
    fold_left (fun styledSpans part => styledSpans ++ [styleToken span th part])
              parts acc
    = acc ++ map (styleToken span th) parts.
Proof.
  induction parts as [| part parts IH]; intros acc; cbn [fold_left map].
  - rewrite app_nil_r. reflexivity.
  - rewrite IH, <- app_assoc. reflexivity.
Qed.

(** The stylist maps [styleToken] over the tokens. *)
Lemma splitCodeContent_map (span : Span) (th : Theme) :
  splitCodeContent span th
  = map (styleToken span th) (splitByKeywords (Content span) keywords).
Proof. unfold splitCodeContent. apply style_loop. Qed.

Lemma classOf_functional (part : Token) (c1 c2 : styleClass) :
  classOf part c1 -> classOf part c2 -> c1 = c2.
Proof. intros H1 H2. destruct H1, H2; congruence. Qed.

Lemma classOf_total (part : Token) : exists cls, classOf part cls.
Proof.
  destruct (IsKeyword part) eqn:Hk; [eexists; apply class_keyword; exact Hk |].
  destruct (isSymbol (Text part)) eqn:Hs;
    [eexists; apply class_symbol; assumption |].
  destruct (isString (Text part)) eqn:Hq;
    [eexists; apply class_string; assumption |].
  eexists; apply class_default; assumption.
Qed.

Lemma styleToken_class (span : Span) (th : Theme) (part : Token)
      (cls : styleClass) :
  classOf part cls ->
  styleToken span th part
  = withContent (withColor span (classColor th cls)) (Text part).
Proof.
  intros Hcls. unfold styleToken.
  destruct Hcls as [Hk | Hk Hs | Hk Hs Hq | Hk Hs Hq];
    rewrite Hk; try rewrite Hs; try rewrite Hq; reflexivity.
Qed.

Lemma isString_quoted (mid : string) : isString (quoted mid) = true.
Proof.
  unfold isString, quoted, HasPrefix, HasSuffix.
  cbn [String.length take Nat.leb String.eqb andb].
  rewrite Ascii.eqb_refl.
  rewrite length_append. cbn [String.length].
  replace (S (String.length mid + 1) - 1)%nat
    with (S (String.length mid)) by lia.
  cbn [drop]. rewrite drop_length_append.
  cbn [String.eqb]. rewrite Ascii.eqb_refl. reflexivity.
Qed.

Lemma isSymbol_quoted (mid : string) : isSymbol (quoted mid) = false.
Proof.
  unfold isSymbol, quoted. cbn [String.length].
  rewrite length_append. cbn [String.length].
  replace (String.length mid + 1)%nat with (S (String.length mid)) by lia.
  reflexivity.
Qed.

Lemma quoted_not_keyword (mid : string) :
  classifyLoop (quoted mid) keywords false = false.
Proof.
  destruct (classifyLoop (quoted mid) keywords false) eqn:H; [| reflexivity].
  apply classifyLoop_In in H. unfold quoted in H. cbn in H.
  destruct H as [H | [H | [H | []]]];
    apply (f_equal (fun t => match t with
                             | String c _ => byteval c
                             | EmptyString => 0
                             end)) in H;
    vm_compute in H; discriminate H.
Qed.

Lemma last_byte_split (s : string) (c : ascii) :
  String.get (String.length s - 1) s = Some c -> s <> "" ->
  exists m, s = (m ++ String c "")%string.
Proof.
  induction s as [| x s IH]; intros Hget Hne; [contradiction Hne; reflexivity |].
  destruct s as [| y s].
  - cbn in Hget. injection Hget as ->. exists "". reflexivity.
  - cbn [String.length] in Hget.
    replace (S (S (String.length s)) - 1)%nat
      with (S (String.length s)) in Hget by lia.
    cbn [String.get] in Hget.
    destruct IH as [m Hm]; [| discriminate |].
    + cbn [String.length].
      replace (S (String.length s) - 1)%nat with (String.length s) by lia.
      exact Hget.
    + exists (String x m). cbn [append]. rewrite <- Hm. reflexivity.
Qed.

(** The texts of at least two bytes that begin and end with a double quote
    are the quoted ones. *)
Lemma quoted_of_ends (text : string) :
  (2 <= String.length text)%nat ->
  String.get 0 text = Some dquote ->
  String.get (String.length text - 1) text = Some dquote ->
  exists mid, text = quoted mid.
Proof.
  intros Hlen Hfirst Hlast.
  destruct text as [| c0 rest]; [discriminate Hfirst |].
  cbn in Hfirst. injection Hfirst as ->.
  destruct rest as [| c1 rest]; [cbn in Hlen; lia |].
  cbn [String.length] in Hlast.
  replace (S (S (String.length rest)) - 1)%nat
    with (S (String.length rest)) in Hlast by lia.
  cbn [String.get] in Hlast.
  destruct (last_byte_split (String c1 rest) dquote) as [mid Hmid].
  - cbn [String.length].
    replace (S (String.length rest) - 1)%nat with (String.length rest) by lia.
    exact Hlast.
  - discriminate.
  - exists mid. unfold quoted. rewrite Hmid. reflexivity.
Qed.

End StylistFacts.

Arguments style_loop {FontT SizeT MetadataT} _ _ _ _.
Arguments splitCodeContent_map {FontT SizeT MetadataT} _ _.
Arguments styleToken_class {FontT SizeT MetadataT} _ _ _ _ _.

(** * The claims *)

Section Claims.

Variables FontT SizeT MetadataT : Type.

Local Abbreviation Span := (SpanStyle FontT SizeT MetadataT).

(** C1, on valid UTF-8. For every input string that is valid UTF-8 (the
    encoding of a sequence of valid runes, [ValidString_iff]) and every
    keyword list, concatenating in order the [Text] fields of the tokens of
    [splitByKeywords] yields exactly the input string. *)
Theorem splitByKeywords_lossless (content : string) (kws : list string) :
  ValidString content = true ->
  joinTexts (splitByKeywords content kws) = content.
Proof.
  intros Hvalid.
  rewrite splitByKeywords_texts.
  apply rangeRunes_encodeRunes. exact Hvalid.
Qed.

(** C2. [classifyToken] keeps the text of the token and flags it as a
    keyword if and only if the token is, byte for byte, one of "func",
    "main" and "Println". *)
Theorem classifyToken_exact (token : string) :
  Text (classifyToken token keywords) = token
  /\ (IsKeyword (classifyToken token keywords) = true
      <-> token = "func" \/ token = "main" \/ token = "Println").
Proof.
  split; [reflexivity |].
  cbn [classifyToken IsKeyword]. rewrite classifyLoop_In.
  unfold keywords. cbn [In].
  intuition congruence.
Qed.

(** C3. The stylist gives every token the color of exactly one class, the
    first that applies in the order keyword, symbol, string, default; a
    token flagged as a keyword gets the accent color [ContrastBg] of the
    theme; and no keyword of the fixed set is a one-character symbol. *)
Theorem styleToken_precedence (span : Span) (th : Theme) (part : Token) :
  (exists cls,
      classOf part cls
      /\ (forall cls', classOf part cls' -> cls' = cls)
      /\ styleToken span th part
         = withContent (withColor span (classColor th cls)) (Text part))
  /\ Color (styleToken span th {| Text := Text part; IsKeyword := true |})
     = ContrastBg (ThemePalette th)
  /\ Forall (fun k => isSymbol k = false) keywords.
Proof.
  split; [| split].
  - destruct (classOf_total part) as [cls Hcls].
    exists cls. split; [exact Hcls | split].
    + intros cls' Hcls'. eapply classOf_functional; eassumption.
    + apply styleToken_class. exact Hcls.
  - reflexivity.
  - repeat constructor.
Qed.

(** C4. A token that is not flagged as a keyword and whose text is one
    character of the symbol set "(),;{}" gets the symbol color. *)
Theorem symbol_token_color (span : Span) (th : Theme) (part : Token)
        (c : ascii) :
  IsKeyword part = false ->
  Text part = String c "" ->
  In c (list_ascii_of_string symbols) ->
  Color (styleToken span th part) = symbolColor.
Proof.
  intros Hk Htext Hin.
  rewrite (styleToken_class span th part SymbolClass); [reflexivity |].
  apply class_symbol; [exact Hk |].
  rewrite Htext. cbn in Hin.
  repeat (destruct Hin as [<- | Hin]; [reflexivity |]).
  contradiction.
Qed.

(** C5. A token of the tokenizer whose text is at least two bytes long,
    begins with a double quote and ends with a double quote gets the
    string color: it is neither flagged as a keyword nor a symbol. *)
Theorem quoted_token_color (span : Span) (th : Theme) (content : string)
        (part : Token) :
  In part (splitByKeywords content keywords) ->
  (2 <= String.length (Text part))%nat ->
  String.get 0 (Text part) = Some dquote ->
  String.get (String.length (Text part) - 1) (Text part) = Some dquote ->
  IsKeyword part = false
  /\ isSymbol (Text part) = false
  /\ Color (styleToken span th part) = stringColor.
Proof.
  intros Hin Hlen Hfirst Hlast.
  destruct (quoted_of_ends _ Hlen Hfirst Hlast) as [mid Htext].
  assert (Hk : IsKeyword part = false).
  { apply splitByKeywords_token in Hin. destruct Hin as (c & Hok & ->).
    destruct c as [r | rs];
      cbn [tokenOf classifyToken Text IsKeyword] in Htext |- *;
      [reflexivity |].
    rewrite Htext. apply quoted_not_keyword. }
  assert (Hs : isSymbol (Text part) = false).
  { rewrite Htext. apply isSymbol_quoted. }
  split; [exact Hk | split; [exact Hs |]].
  rewrite (styleToken_class span th part StringClass); [reflexivity |].
  apply class_string; [exact Hk | exact Hs |].
  rewrite Htext. apply isString_quoted.
Qed.

(** C6. "func main() {" is split into "func", " ", "main", "(", ")", " ",
    "{", of which exactly "func" and "main" are flagged as keywords; the
    stylist colors "func" and "main" with the accent color, "(", ")" and
    "{" with the symbol color and the two spaces with the default color. *)
Theorem func_main_example (th : Theme) (f : FontT) (sz : SizeT) (c : NRGBA)
        (i : bool) (m : MetadataT) :
  splitByKeywords "func main() {" keywords
  = [ {| Text := "func"; IsKeyword := true |};
      {| Text := " "; IsKeyword := false |};
      {| Text := "main"; IsKeyword := true |};
      {| Text := "("; IsKeyword := false |};
      {| Text := ")"; IsKeyword := false |};
      {| Text := " "; IsKeyword := false |};
      {| Text := "{"; IsKeyword := false |} ]
  /\ splitCodeContent (mkSpanStyle _ _ _ f sz c "func main() {" i m) th
     = [ mkSpanStyle _ _ _ f sz (ContrastBg (ThemePalette th)) "func" i m;
         mkSpanStyle _ _ _ f sz (Fg (ThemePalette th)) " " i m;
         mkSpanStyle _ _ _ f sz (ContrastBg (ThemePalette th)) "main" i m;
         mkSpanStyle _ _ _ f sz symbolColor "(" i m;
         mkSpanStyle _ _ _ f sz symbolColor ")" i m;
         mkSpanStyle _ _ _ f sz (Fg (ThemePalette th)) " " i m;
         mkSpanStyle _ _ _ f sz symbolColor "{" i m ].
Proof.
  assert (Htokens :
            splitByKeywords "func main() {" keywords
            = [ {| Text := "func"; IsKeyword := true |};
                {| Text := " "; IsKeyword := false |};
                {| Text := "main"; IsKeyword := true |};
                {| Text := "("; IsKeyword := false |};
                {| Text := ")"; IsKeyword := false |};
                {| Text := " "; IsKeyword := false |};
                {| Text := "{"; IsKeyword := false |} ])
    by (vm_compute; reflexivity).
  split; [exact Htokens |].
  rewrite splitCodeContent_map. cbn [Content].
  rewrite Htokens. reflexivity.
Qed.

(** C7. [splitCodeContent] yields one segment per token, in the order of
    the tokens; the content of a segment is the text of its token, and
    font, size, interactivity and metadata are those of the enclosing
    span: only [Color] and [Content] can differ. *)
Theorem splitCodeContent_frame (span : Span) (th : Theme) :
  Forall2 (fun part ns =>
             Content ns = Text part
             /\ Font ns = Font span
             /\ Size ns = Size span
             /\ Interactive ns = Interactive span
             /\ metadata ns = metadata span)
          (splitByKeywords (Content span) keywords)
          (splitCodeContent span th).
Proof.
  rewrite splitCodeContent_map.
  induction (splitByKeywords (Content span) keywords) as [| part parts IH];
    cbn [map]; constructor; [| exact IH].
  unfold styleToken.
  destruct (IsKeyword part); [| destruct (isSymbol (Text part));
                                [| destruct (isString (Text part))]];
    cbn; auto.
Qed.

(** C8. The tokens of [splitByKeywords] are the tokens of a division of
    the runes of the input, in order, into chunks: a chunk is one
    separator rune, emitted as a one-byte token that is not a keyword, or
    a nonempty run of runes none of which is a separator; no two runs are
    neighbours, so every run is maximal. The empty input has no token. *)
Theorem splitByKeywords_shape (content : string) (kws : list string) :
  (exists cs : list chunk,
      flat_map chunkRunes cs = rangeRunes content
      /\ splitByKeywords content kws = map (tokenOf kws) cs
      /\ Forall chunkOk cs
      /\ runsMaximal cs)
  /\ splitByKeywords "" kws = [].
Proof.
  split; [| reflexivity].
  exists (chunksFrom [] (rangeRunes content)).
  split; [apply chunksFrom_runes |].
  split; [apply splitByKeywords_chunks |].
  split; [apply chunksFrom_ok; constructor | apply chunksFrom_maximal].
Qed.

(** C9. The tokenizer emits a lone double quote as a token (the double
    quote is no separator); [isString] holds of it; it is neither flagged
    as a keyword nor a symbol, and the stylist gives it the string
    color. *)
Theorem lone_quote_is_string (span : Span) (th : Theme) :
  ContainsRune separators (byteval dquote) = false
  /\ splitByKeywords (String dquote "") keywords
     = [ {| Text := String dquote ""; IsKeyword := false |} ]
  /\ isString (String dquote "") = true
  /\ isSymbol (String dquote "") = false
  /\ Color (styleToken span th {| Text := String dquote "";
                                  IsKeyword := false |})
     = stringColor.
Proof.
  split; [vm_compute; reflexivity |].
  split; [vm_compute; reflexivity |].
  assert (Hstring : isString (String dquote "") = true)
    by (vm_compute; reflexivity).
  assert (Hsymbol : isSymbol (String dquote "") = false)
    by (vm_compute; reflexivity).
  split; [exact Hstring | split; [exact Hsymbol |]].
  rewrite (styleToken_class span th _ StringClass); [reflexivity |].
  apply class_string; [reflexivity | exact Hsymbol | exact Hstring].
Qed.

(** C10. The period is a separator and no symbol: for an input that
    contains a period, [splitByKeywords] emits the period as a token of
    its own that is not flagged as a keyword, and the stylist gives that
    token the default color [Fg] of the theme, by the default case and
    not by the symbol case. *)
Theorem period_token_default (span : Span) (th : Theme) (content : string)
        (kws : list string) :
  In "."%char (list_ascii_of_string content) ->
  ContainsRune separators (byteval ".") = true
  /\ ContainsRune symbols (byteval ".") = false
  /\ In {| Text := "."; IsKeyword := false |} (splitByKeywords content kws)
  /\ isSymbol "." = false
  /\ classOf {| Text := "."; IsKeyword := false |} DefaultClass
  /\ Color (styleToken span th {| Text := "."; IsKeyword := false |})
     = Fg (ThemePalette th).
Proof.
  intros Hin.
  split; [reflexivity |]. split; [reflexivity |].
  split.
  - apply (splitByKeywords_separator kws content (byteval ".")).
    + reflexivity.
    + apply rangeRunes_ascii_byte; [vm_compute; reflexivity | exact Hin].
  - split; [reflexivity |].
    split; [apply class_default; reflexivity | reflexivity].
Qed.

End Claims.

(** ** The claims at concrete inputs *)

Lemma splitByKeywords_lossless_witness :
  ValidString sampleLine = true
  /\ joinTexts (splitByKeywords sampleLine keywords) = sampleLine.
Proof.
  split; [vm_compute; reflexivity |].
  apply (splitByKeywords_lossless sampleLine keywords).
  vm_compute; reflexivity.
Defined.

(** C1 does not extend to strings that are not valid UTF-8: the byte 0xFF
    is read as [runeError] and comes back as the three bytes EF BF BD. *)
Lemma splitByKeywords_lossless_counterexample :
  joinTexts (splitByKeywords (String (chr 0xFF) "") keywords)
  = String (chr 0xEF) (String (chr 0xBF) (String (chr 0xBD) ""))
  /\ joinTexts (splitByKeywords (String (chr 0xFF) "") keywords)
     <> String (chr 0xFF) "".
Proof. split; [vm_compute; reflexivity | vm_compute; discriminate]. Qed.

Lemma symbol_token_color_witness :
  Color (styleToken (sampleSpan "f(x)") sampleTheme
                    {| Text := "("; IsKeyword := false |})
  = symbolColor.
Proof.
  apply (symbol_token_color unit unit unit (sampleSpan "f(x)") sampleTheme
                            {| Text := "("; IsKeyword := false |} "(").
  - reflexivity.
  - reflexivity.
  - simpl. left. reflexivity.
Defined.

Lemma quoted_token_color_witness :
  IsKeyword {| Text := quoted "Hello"; IsKeyword := false |} = false
  /\ isSymbol (quoted "Hello") = false
  /\ Color (styleToken (sampleSpan (quoted "Hello")) sampleTheme
                       {| Text := quoted "Hello"; IsKeyword := false |})
     = stringColor.
Proof.
  apply (quoted_token_color unit unit unit (sampleSpan (quoted "Hello"))
                            sampleTheme (quoted "Hello")
                            {| Text := quoted "Hello"; IsKeyword := false |}).
  - vm_compute. left. reflexivity.
  - simpl. lia.
  - reflexivity.
  - reflexivity.
Defined.

Lemma period_token_default_witness :
  In {| Text := "."; IsKeyword := false |}
     (splitByKeywords "fmt.Println" keywords)
  /\ Color (styleToken (sampleSpan "fmt.Println") sampleTheme
                       {| Text := "."; IsKeyword := false |})
     = Fg (ThemePalette sampleTheme).
Proof.
  destruct (period_token_default unit unit unit (sampleSpan "fmt.Println")
                                 sampleTheme "fmt.Println" keywords)
    as (_ & _ & Hin & _ & _ & Hcolor).
  - simpl. right. right. right. left. reflexivity.
  - split; [exact Hin | exact Hcolor].
Defined.

(** * Further properties of the code *)

(** ** The runes of a [range] loop *)

Section RangeRunes.

Lemma rangeStep_rune_valid (c : ascii) (s' : string) :
  ValidRune (fst (rangeStep c s')) = true.
Proof.
  destruct (rangeStep c s') as [r w] eqn:Hstep. cbn [fst].
  destruct (malformed r w) eqn:Hbad.
  - unfold malformed in Hbad. apply andb_true_iff in Hbad.
    destruct Hbad as [Hr _]. apply Z.eqb_eq in Hr. subst r. reflexivity.
  - apply (rangeStep_sound c s' r w Hstep Hbad).
Qed.

(** Whatever the bytes, the loop sees valid runes only: a malformed
    sequence is read as U+FFFD. *)
Lemma rangeFrom_runes_valid (fuel : nat) :
  forall s, Forall (fun r => ValidRune r = true) (rangeFrom fuel s).
Proof.
  induction fuel as [| fuel IH]; intros s; [constructor |].
  destruct s as [| c s']; [constructor |].
  cbn [rangeFrom].
  pose proof (rangeStep_rune_valid c s') as Hr.
  destruct (rangeStep c s') as [r w]. cbn [fst] in Hr.
  constructor; [exact Hr | apply IH].
Qed.

Lemma rangeRunes_valid (s : string) :
  Forall (fun r => ValidRune r = true) (rangeRunes s).
Proof. apply rangeFrom_runes_valid. Qed.

Lemma rangeRunes_encodeRunes_id (rs : list rune) :
  Forall (fun r => ValidRune r = true) rs ->
  rangeRunes (encodeRunes rs) = rs.
Proof. intros Hrs. apply (rangeFrom_complete rs Hrs). lia. Qed.

Lemma drop_append (n : nat) :
  forall x y, (n <= String.length x)%nat ->
              drop n (x ++ y)%string = (drop n x ++ y)%string.
Proof.
  induction n as [| n IH]; intros x y Hn; [reflexivity |].
  destruct x as [| c x]; [cbn in Hn; lia |].
  cbn [append drop]. apply IH. cbn in Hn. lia.
Qed.

Lemma decoderune_width_le (c : ascii) (s' : string) :
  (snd (decoderune (String c s')) <= S (String.length s'))%nat.
Proof.
  unfold decoderune.
  repeat match goal with
         | |- context [match ?x with _ => _ end] => destruct x
         end; cbn [snd String.length]; lia.
Qed.

Lemma rangeStep_width_le (c : ascii) (s' : string) :
  (snd (rangeStep c s') <= S (String.length s'))%nat.
Proof.
  unfold rangeStep.
  destruct (byteval c <? runeSelf); [cbn [snd]; lia |].
  apply decoderune_width_le.
Qed.

Lemma cont_ascii (c : ascii) : byteval c < 128 -> cont (byteval c) = false.
Proof.
  intros Hc. unfold cont, locb.
  destruct (Z.leb_spec 128 (byteval c)); [lia | reflexivity].
Qed.

(** A byte below [runeSelf] that follows is never part of a decoding: it
    ends a sequence just as the end of the string does. *)
Lemma decoderune_before_ascii (c0 : ascii) (s' : string) (c : ascii)
      (b : string) :
  byteval c < 128 ->
  decoderune (String c0 (s' ++ String c b)) = decoderune (String c0 s').
Proof.
  intros Hc. apply cont_ascii in Hc.
  unfold decoderune.
  destruct s' as [| c1 [| c2 [| c3 s4]]]; cbn [append];
    rewrite ?Hc, ?andb_false_r; cbn [andb];
    repeat match goal with
           | |- context [match ?x with _ => _ end] => destruct x
           end; reflexivity.
Qed.

Lemma rangeStep_before_ascii (c0 : ascii) (s' : string) (c : ascii)
      (b : string) :
  byteval c < 128 ->
  rangeStep c0 (s' ++ String c b) = rangeStep c0 s'.
Proof.
  intros Hc. unfold rangeStep.
  destruct (byteval c0 <? runeSelf); [reflexivity |].
  apply decoderune_before_ascii. exact Hc.
Qed.

Lemma rangeFrom_ascii_head (fuel : nat) (c : ascii) (b : string) :
  byteval c < 128 ->
  rangeFrom (S fuel) (String c b) = byteval c :: rangeFrom fuel b.
Proof.
  intros Hc. cbn [rangeFrom]. unfold rangeStep.
  destruct (Z.ltb_spec (byteval c) runeSelf) as [_ | Hge];
    [reflexivity | unfold runeSelf in Hge; lia].
Qed.

(** The loop reads the bytes before a byte below [runeSelf], that byte,
    and the bytes after it independently of each other. *)
Lemma rangeFrom_app_ascii (c : ascii) (b : string) :
  byteval c < 128 ->
  forall n a fuel,
    (String.length a <= n)%nat ->
    (String.length (a ++ String c b) <= fuel)%nat ->
    rangeFrom fuel (a ++ String c b)
    = rangeFrom n a ++ byteval c :: rangeRunes b.
Proof.
  intros Hc. induction n as [| n IH]; intros a fuel Ha Hfuel.
  - destruct a; [| cbn in Ha; lia]. cbn [append] in *.
    destruct fuel as [| fuel]; [cbn in Hfuel; lia |].
    rewrite rangeFrom_ascii_head by exact Hc. cbn [rangeFrom app].
    f_equal. apply rangeFrom_fuel; [cbn in Hfuel; lia | lia].
  - destruct a as [| c0 a'].
    + cbn [append] in *.
      destruct fuel as [| fuel]; [cbn in Hfuel; lia |].
      rewrite rangeFrom_ascii_head by exact Hc. cbn [rangeFrom app].
      f_equal. apply rangeFrom_fuel; [cbn in Hfuel; lia | lia].
    + cbn [append] in *.
      destruct fuel as [| fuel]; [cbn in Hfuel; lia |].
      cbn [rangeFrom].
      rewrite rangeStep_before_ascii by exact Hc.
      pose proof (rangeStep_width_le c0 a') as Hle.
      pose proof (rangeStep_width c0 a') as Hge.
      destruct (rangeStep c0 a') as [r w] eqn:Hstep. cbn [snd] in Hle, Hge.
      cbn [app]. f_equal.
      change (String c0 (a' ++ String c b))
        with (String c0 a' ++ String c b)%string.
      rewrite drop_append by (cbn [String.length]; lia).
      apply IH.
      * rewrite length_drop. cbn [String.length] in *. lia.
      * rewrite length_append, length_drop.
        cbn [String.length] in Hfuel. rewrite length_append in Hfuel.
        cbn [String.length] in *. lia.
Qed.

Lemma rangeRunes_app_ascii (a : string) (c : ascii) (b : string) :
  byteval c < 128 ->
  rangeRunes (a ++ String c b)
  = rangeRunes a ++ byteval c :: rangeRunes b.
Proof.
  intros Hc. unfold rangeRunes at 1 2.
  apply rangeFrom_app_ascii; [exact Hc | lia | lia].
Qed.

Lemma rangeFrom_length_le (fuel : nat) :
  forall s, (List.length (rangeFrom fuel s) <= String.length s)%nat.
Proof.
  induction fuel as [| fuel IH]; intros s; [cbn; lia |].
  destruct s as [| c s']; [cbn; lia |].
  cbn [rangeFrom].
  pose proof (rangeStep_width c s') as Hw.
  destruct (rangeStep c s') as [r w]. cbn [snd] in Hw.
  cbn [List.length]. specialize (IH (drop w (String c s'))).
  rewrite length_drop in IH. cbn [String.length] in *. lia.
Qed.

End RangeRunes.

(** ** The tokenizer, further *)

Section TokenizerMore.

Variable kws : list string.

Lemma separator_byte (c : ascii) :
  In c (list_ascii_of_string separators) ->
  byteval c < 128
  /\ ContainsRune separators (byteval c) = true
  /\ runeString (byteval c) = String c "".
Proof.
  intros Hin. cbn in Hin.
  repeat (destruct Hin as [<- | Hin];
          [split; [vm_compute; reflexivity | split; reflexivity] |]).
  contradiction.
Qed.

Lemma separatorTexts_iff (t : string) :
  In t separatorTexts
  <-> exists r, ContainsRune separators r = true /\ t = runeString r.
Proof.
  unfold separatorTexts. rewrite in_map_iff. split.
  - intros (c & <- & Hc). apply separator_byte in Hc.
    destruct Hc as (_ & Hsep & Htext).
    exists (byteval c). split; [exact Hsep | symmetry; exact Htext].
  - intros (r & Hsep & ->). apply separator_runes in Hsep. cbn in Hsep.
    repeat (destruct Hsep as [<- | Hsep];
            [eexists; split; [reflexivity | cbn; tauto] |]).
    contradiction.
Qed.

Lemma chunksFrom_app_sep (r : rune) (rb : list rune) :
  ContainsRune separators r = true ->
  forall ra cur,
    chunksFrom cur (ra ++ r :: rb)
    = chunksFrom cur ra ++ Sep r :: chunksFrom [] rb.
Proof.
  intros Hsep. induction ra as [| x ra IH]; intros cur; cbn [app chunksFrom].
  - rewrite Hsep. reflexivity.
  - destruct (ContainsRune separators x).
    + rewrite IH, <- app_assoc. reflexivity.
    + apply IH.
Qed.

Lemma chunksFrom_run (rs : list rune) :
  Forall (fun r => ContainsRune separators r = false) rs ->
  forall cur, chunksFrom cur rs = pending (cur ++ rs).
Proof.
  induction 1 as [| r rs Hr _ IH]; intros cur; cbn [chunksFrom].
  - rewrite app_nil_r. reflexivity.
  - rewrite Hr, IH, <- app_assoc. reflexivity.
Qed.

Lemma chunk_runes_in (rs : list rune) (c : chunk) (r : rune) :
  In c (chunksFrom [] rs) -> In r (chunkRunes c) -> In r rs.
Proof.
  intros Hc Hr.
  pose proof (chunksFrom_runes rs []) as Hrunes. cbn [app] in Hrunes.
  rewrite <- Hrunes. apply in_flat_map.
  exists c. split; assumption.
Qed.

Lemma chunk_runes_valid (content : string) (c : chunk) :
  In c (chunksFrom [] (rangeRunes content)) ->
  Forall (fun r => ValidRune r = true) (chunkRunes c).
Proof.
  intros Hc. apply Forall_forall. intros r Hr.
  pose proof (rangeRunes_valid content) as Hvalid.
  rewrite Forall_forall in Hvalid. apply Hvalid.
  eapply chunk_runes_in; eassumption.
Qed.

(** The tokens of the text of a chunk are the token of the chunk. *)
Lemma splitByKeywords_chunk_text (c : chunk) :
  chunkOk c -> Forall (fun r => ValidRune r = true) (chunkRunes c) ->
  splitByKeywords (encodeRunes (chunkRunes c)) kws = [tokenOf kws c].
Proof.
  intros Hok Hvalid.
  rewrite splitByKeywords_chunks, rangeRunes_encodeRunes_id by exact Hvalid.
  destruct c as [r | rs]; cbn [chunkRunes chunkOk] in *.
  - destruct Hok as [Hsep _]. cbn [chunksFrom]. rewrite Hsep. reflexivity.
  - destruct Hok as [Hne Hrun].
    rewrite chunksFrom_run by exact Hrun. cbn [app].
    destruct rs as [| r rs]; [contradiction Hne; reflexivity |].
    reflexivity.
Qed.

Lemma tokenOf_text (c : chunk) :
  Text (tokenOf kws c) = encodeRunes (chunkRunes c).
Proof.
  destruct c as [r | rs]; cbn; [rewrite append_nil_r |]; reflexivity.
Qed.

(** A token of the tokenizer comes from a chunk of the runes read. *)
Lemma splitByKeywords_token_chunk (content : string) (part : Token) :
  In part (splitByKeywords content kws) ->
  exists c,
    part = tokenOf kws c /\ chunkOk c
    /\ Forall (fun r => ValidRune r = true) (chunkRunes c).
Proof.
  rewrite splitByKeywords_chunks. intros Hin.
  apply in_map_iff in Hin. destruct Hin as (c & <- & Hin).
  exists c. split; [reflexivity | split].
  - pose proof (chunksFrom_ok (rangeRunes content) [] (Forall_nil _)) as Hok.
    rewrite Forall_forall in Hok. apply Hok. exact Hin.
  - eapply chunk_runes_valid. exact Hin.
Qed.

Lemma run_text_not_separator (rs : list rune) (r : rune) :
  Forall (fun x => ValidRune x = true) rs ->
  Forall (fun x => ContainsRune separators x = false) rs ->
  ContainsRune separators r = true ->
  encodeRunes rs <> runeString r.
Proof.
  intros Hvalid Hrun Hsep Heq.
  apply (f_equal rangeRunes) in Heq.
  rewrite rangeRunes_encodeRunes_id in Heq by exact Hvalid.
  rewrite <- (append_nil_r (runeString r)) in Heq.
  change (runeString r ++ "")%string with (encodeRunes [r]) in Heq.
  rewrite rangeRunes_encodeRunes_id in Heq.
  - subst rs. inversion Hrun as [| x xs Hx _]. congruence.
  - constructor; [| constructor].
    apply separator_runes in Hsep. cbn in Hsep.
    repeat (destruct Hsep as [<- | Hsep]; [reflexivity |]).
    contradiction.
Qed.

Lemma chunks_length (cs : list chunk) :
  Forall chunkOk cs ->
  (List.length cs <= List.length (flat_map chunkRunes cs))%nat.
Proof.
  induction 1 as [| c cs Hc _ IH]; cbn [flat_map List.length]; [lia |].
  rewrite length_app.
  assert (1 <= List.length (chunkRunes c))%nat; [| lia].
  destruct c as [r | rs]; cbn in Hc |- *; [lia |].
  destruct Hc as [Hne _]. destruct rs; [contradiction Hne; reflexivity |].
  cbn. lia.
Qed.

Lemma splitByKeywords_length (content : string) :
  (List.length (splitByKeywords content kws)
   <= List.length (rangeRunes content))%nat.
Proof.
  rewrite splitByKeywords_chunks, length_map.
  pose proof (chunksFrom_runes (rangeRunes content) []) as Hrunes.
  cbn [app] in Hrunes. rewrite <- Hrunes at 2.
  apply chunks_length. apply chunksFrom_ok. constructor.
Qed.

Lemma splitByKeywords_nil_iff (content : string) :
  splitByKeywords content kws = [] <-> content = "".
Proof.
  split; [| intros ->; reflexivity].
  intros Hnil. destruct content as [| c s']; [reflexivity |].
  exfalso. rewrite splitByKeywords_chunks in Hnil.
  apply map_eq_nil in Hnil.
  pose proof (chunksFrom_runes (rangeRunes (String c s')) []) as Hrunes.
  rewrite Hnil in Hrunes. cbn [flat_map app] in Hrunes.
  unfold rangeRunes in Hrunes. cbn [String.length rangeFrom] in Hrunes.
  destruct (rangeStep c s'); discriminate Hrunes.
Qed.

End TokenizerMore.

(** ** [isSymbol] and [isString], exactly *)

Section Predicates.

Lemma byteval_inj (a b : ascii) : byteval a = byteval b -> a = b.
Proof.
  intros H. rewrite <- (chr_byteval a), <- (chr_byteval b), H. reflexivity.
Qed.

Lemma isSymbol_iff (text : string) :
  isSymbol text = true <-> In text symbolTexts.
Proof.
  split.
  - unfold isSymbol. intros H. apply andb_true_iff in H.
    destruct H as [Hlen Hsym]. apply Nat.eqb_eq in Hlen.
    destruct text as [| c [| c' rest]]; try discriminate Hlen.
    apply ContainsRune_ascii in Hsym;
      [| repeat constructor | reflexivity].
    destruct Hsym as [_ Hsym]. apply hasByte_In in Hsym.
    apply in_map_iff in Hsym. destruct Hsym as (c0 & Heq & Hin).
    apply byteval_inj in Heq. subst c0.
    unfold symbolTexts. apply in_map_iff. exists c. auto.
  - unfold symbolTexts. cbn. intros H.
    repeat (destruct H as [<- | H]; [reflexivity |]).
    contradiction.
Qed.

Lemma HasPrefix_byte (text : string) (c : ascii) :
  HasPrefix text (String c "") = true -> exists rest, text = String c rest.
Proof.
  destruct text as [| a rest]; [discriminate |].
  intros H. apply HasPrefix_head in H. subst a. exists rest. reflexivity.
Qed.

Lemma drop_last_split (s : string) (c : ascii) :
  s <> "" -> drop (String.length s - 1) s = String c "" ->
  exists m, s = (m ++ String c "")%string.
Proof.
  induction s as [| x s IH]; intros Hne Hdrop;
    [contradiction Hne; reflexivity |].
  destruct s as [| y s].
  - cbn in Hdrop. exists "". exact Hdrop.
  - cbn [String.length] in Hdrop.
    replace (S (S (String.length s)) - 1)%nat
      with (S (String.length s)) in Hdrop by lia.
    cbn [drop] in Hdrop.
    destruct IH as [m Hm]; [discriminate | |].
    + cbn [String.length].
      replace (S (String.length s) - 1)%nat with (String.length s) by lia.
      exact Hdrop.
    + exists (String x m). cbn [append]. rewrite <- Hm. reflexivity.
Qed.

Lemma HasSuffix_byte (text : string) (c : ascii) :
  HasSuffix text (String c "") = true ->
  exists m, text = (m ++ String c "")%string.
Proof.
  unfold HasSuffix. cbn [String.length]. intros H.
  apply andb_true_iff in H. destruct H as [Hlen Heq].
  apply Nat.leb_le in Hlen. apply String.eqb_eq in Heq.
  apply drop_last_split; [| exact Heq].
  intros ->. cbn in Hlen. lia.
Qed.

Lemma isString_iff (text : string) :
  isString text = true
  <-> text = String dquote "" \/ exists mid, text = quoted mid.
Proof.
  split.
  - unfold isString. intros H. apply andb_true_iff in H.
    destruct H as [Hpre Hsuf].
    apply HasPrefix_byte in Hpre. destruct Hpre as [rest ->].
    destruct rest as [| c rest]; [left; reflexivity | right].
    apply HasSuffix_byte in Hsuf. destruct Hsuf as [m Hm].
    destruct m as [| x m]; [discriminate Hm |].
    cbn [append] in Hm. injection Hm as _ Hm.
    exists m. unfold quoted. rewrite Hm. reflexivity.
  - intros [-> | [mid ->]]; [reflexivity | apply isString_quoted].
Qed.

Lemma isSymbol_not_isString (text : string) :
  isSymbol text = true -> isString text = false.
Proof.
  intros H. apply isSymbol_iff in H. unfold symbolTexts in H. cbn in H.
  repeat (destruct H as [<- | H]; [reflexivity |]).
  contradiction.
Qed.

End Predicates.

(** ** The stylist, further *)

Section StylistMore.

Variables FontT SizeT MetadataT : Type.

Local Abbreviation Span := (SpanStyle FontT SizeT MetadataT).

Lemma joinContents_app (xs ys : list Span) :
  joinContents (xs ++ ys) = (joinContents xs ++ joinContents ys)%string.
Proof.
  induction xs as [| x xs IH]; cbn; [reflexivity |].
  rewrite IH, append_assoc. reflexivity.
Qed.

Lemma styleToken_content (span : Span) (th : Theme) (part : Token) :
  Content (styleToken span th part) = Text part.
Proof. reflexivity. Qed.

Lemma joinContents_styled (span : Span) (th : Theme) (parts : list Token) :
  joinContents (map (styleToken span th) parts) = joinTexts parts.
Proof.
  induction parts as [| part parts IH]; cbn [map joinContents joinTexts];
    [reflexivity |].
  rewrite IH. reflexivity.
Qed.

Lemma splitCodeContent_contents (span : Span) (th : Theme) :
  joinContents (splitCodeContent span th)
  = encodeRunes (rangeRunes (Content span)).
Proof.
  rewrite splitCodeContent_map, joinContents_styled.
  apply splitByKeywords_texts.
Qed.

Lemma styleToken_restyle (span : Span) (th : Theme) (part part' : Token) :
  styleToken (styleToken span th part') th part = styleToken span th part.
Proof.
  unfold styleToken.
  destruct (IsKeyword part'); [| destruct (isSymbol (Text part'));
                                 [| destruct (isString (Text part'))]];
    (destruct (IsKeyword part); [| destruct (isSymbol (Text part));
                                  [| destruct (isString (Text part))]]);
    reflexivity.
Qed.

(** A segment of the stylist, styled again, is itself. *)
Lemma splitCodeContent_segment (span : Span) (th : Theme) (seg : Span) :
  In seg (splitCodeContent span th) -> splitCodeContent seg th = [seg].
Proof.
  rewrite splitCodeContent_map. intros Hin.
  apply in_map_iff in Hin. destruct Hin as (part & <- & Hin).
  rewrite splitCodeContent_map, styleToken_content.
  apply splitByKeywords_token_chunk in Hin.
  destruct Hin as (c & -> & Hok & Hvalid).
  rewrite tokenOf_text.
  rewrite (splitByKeywords_chunk_text keywords c Hok Hvalid).
  cbn [map]. rewrite styleToken_restyle. reflexivity.
Qed.

Lemma splitCodeContent_font (span : Span) (th : Theme) (seg : Span) :
  In seg (splitCodeContent span th) -> Font seg = Font span.
Proof.
  rewrite splitCodeContent_map. intros Hin.
  apply in_map_iff in Hin. destruct Hin as (part & <- & _).
  unfold styleToken.
  destruct (IsKeyword part); [| destruct (isSymbol (Text part));
                                [| destruct (isString (Text part))]];
    reflexivity.
Qed.

Variable Typeface : FontT -> string.

Lemma styleSpans_loop (th : Theme) (spans : list Span) :
  forall acc,
    fold_left (styleSpansStep Typeface th) spans acc
    = acc ++ flat_map (fun span => if isCode Typeface span
                                   then splitCodeContent span th
                                   else [span]) spans.
Proof.
  induction spans as [| span spans IH]; intros acc;
    cbn [fold_left flat_map].
  - rewrite app_nil_r. reflexivity.
  - rewrite IH. unfold styleSpansStep at 1.
    destruct (isCode Typeface span); rewrite <- app_assoc; reflexivity.
Qed.

Lemma styleSpans_flat_map (th : Theme) (spans : list Span) :
  styleSpans Typeface th spans
  = flat_map (fun span => if isCode Typeface span
                          then splitCodeContent span th
                          else [span]) spans.
Proof. unfold styleSpans. apply styleSpans_loop. Qed.

End StylistMore.

Arguments joinContents_app {FontT SizeT MetadataT} _ _.
Arguments joinContents_styled {FontT SizeT MetadataT} _ _ _.
Arguments splitCodeContent_contents {FontT SizeT MetadataT} _ _.
Arguments styleToken_restyle {FontT SizeT MetadataT} _ _ _ _.
Arguments splitCodeContent_segment {FontT SizeT MetadataT} _ _ _ _.
Arguments splitCodeContent_font {FontT SizeT MetadataT} _ _ _ _.
Arguments styleSpans_loop {FontT SizeT MetadataT} _ _ _ _.
Arguments styleSpans_flat_map {FontT SizeT MetadataT} _ _ _.

(** ** Properties of the tokenizer *)

Section TokenizerProperties.

Variable kws : list string.

(** X1. The tokenizer works piece by piece at every separator byte: for
    all byte strings [a] and [b], valid UTF-8 or not, the tokens of [a],
    the separator and [b] in a row are the tokens of [a], the separator
    token, and the tokens of [b]. *)
Theorem splitByKeywords_at_separator (a : string) (c : ascii) (b : string) :
  In c (list_ascii_of_string separators) ->
  splitByKeywords (a ++ String c b) kws
  = splitByKeywords a kws
      ++ {| Text := String c ""; IsKeyword := false |}
      :: splitByKeywords b kws.
Proof.
  intros Hin. apply separator_byte in Hin.
  destruct Hin as (Hc & Hsep & Htext).
  rewrite !splitByKeywords_chunks, rangeRunes_app_ascii by exact Hc.
  rewrite chunksFrom_app_sep by exact Hsep.
  rewrite map_app. cbn [map tokenOf]. rewrite Htext. reflexivity.
Qed.

(** X2. Whatever the input, the texts of the tokens, concatenated, are
    valid UTF-8, and tokenizing that text again gives the same tokens. *)
Theorem splitByKeywords_renormalises (content : string) :
  ValidString (joinTexts (splitByKeywords content kws)) = true
  /\ splitByKeywords (joinTexts (splitByKeywords content kws)) kws
     = splitByKeywords content kws.
Proof.
  rewrite splitByKeywords_texts.
  pose proof (rangeRunes_valid content) as Hvalid.
  split.
  - apply ValidString_iff. exists (rangeRunes content). auto.
  - rewrite (splitByKeywords_chunks kws (encodeRunes (rangeRunes content))).
    rewrite rangeRunes_encodeRunes_id by exact Hvalid.
    symmetry. apply splitByKeywords_chunks.
Qed.

(** X3. A token of the tokenizer is a fixed point: its text, tokenized
    alone, gives exactly that token. *)
Theorem splitByKeywords_token_fixpoint (content : string) (part : Token) :
  In part (splitByKeywords content kws) ->
  splitByKeywords (Text part) kws = [part].
Proof.
  intros Hin. apply splitByKeywords_token_chunk in Hin.
  destruct Hin as (c & -> & Hok & Hvalid).
  rewrite tokenOf_text. apply splitByKeywords_chunk_text; assumption.
Qed.

(** X4. A token of the tokenizer is flagged as a keyword if and only if
    its text is in the keyword list and is not a separator: a separator is
    never flagged, even when the keyword list holds it. *)
Theorem splitByKeywords_flag_iff (content : string) (part : Token) :
  In part (splitByKeywords content kws) ->
  (IsKeyword part = true
   <-> In (Text part) kws /\ ~ In (Text part) separatorTexts).
Proof.
  intros Hin. apply splitByKeywords_token_chunk in Hin.
  destruct Hin as (c & -> & Hok & Hvalid).
  destruct c as [r | rs]; cbn [tokenOf classifyToken Text IsKeyword].
  - destruct Hok as [Hsep _]. split; [discriminate |].
    intros [_ Hnot]. exfalso. apply Hnot.
    apply separatorTexts_iff. exists r. auto.
  - destruct Hok as [_ Hrun]. cbn [chunkRunes] in Hvalid.
    rewrite classifyLoop_In. split; [| tauto].
    intros Hkw. split; [exact Hkw |].
    intros Hsep. apply separatorTexts_iff in Hsep.
    destruct Hsep as (r & Hsep & Heq).
    exact (run_text_not_separator rs r Hvalid Hrun Hsep Heq).
Qed.

(** X5. There are never more tokens than runes read, nor more runes than
    bytes, and there is no token exactly when the input is empty. *)
Theorem splitByKeywords_count (content : string) :
  (List.length (splitByKeywords content kws)
   <= List.length (rangeRunes content) <= String.length content)%nat
  /\ (splitByKeywords content kws = [] <-> content = "").
Proof.
  split; [split |].
  - apply splitByKeywords_length.
  - apply rangeFrom_length_le.
  - apply splitByKeywords_nil_iff.
Qed.

(** X6. On an input that is not valid UTF-8 the texts of the tokens are
    strictly longer than the input: every malformed byte comes back as
    the three bytes of U+FFFD. *)
Theorem splitByKeywords_grows_invalid (content : string) :
  ValidString content = false ->
  (String.length content
   < String.length (joinTexts (splitByKeywords content kws)))%nat.
Proof.
  intros Hinvalid. rewrite splitByKeywords_texts.
  apply (rangeFrom_length (String.length content) content (le_n _)).
  exact Hinvalid.
Qed.

End TokenizerProperties.

(** ** Properties of [isSymbol] and [isString] *)

(** X7. [isSymbol] holds exactly of the six one-byte texts "(", ")", ",",
    ";", "{" and "}"; a byte from 0x80 on is no symbol. *)
Theorem isSymbol_exact (text : string) :
  isSymbol text = true
  <-> text = "(" \/ text = ")" \/ text = "," \/ text = ";"
      \/ text = "{" \/ text = "}".
Proof.
  rewrite isSymbol_iff. unfold symbolTexts. cbn.
  intuition congruence.
Qed.

(** X8. [isString] holds exactly of the lone double quote and of the
    texts that begin and end with a double quote; what lies between is
    not looked at, and the empty text is no string. *)
Theorem isString_exact (text : string) :
  (isString text = true
   <-> text = String dquote "" \/ exists mid, text = quoted mid)
  /\ isString "" = false.
Proof. split; [apply isString_iff | reflexivity]. Qed.

(** ** Properties of the stylist and of the span loop *)

Section StylistProperties.

Variables FontT SizeT MetadataT : Type.

Local Abbreviation Span := (SpanStyle FontT SizeT MetadataT).

(** X9. For a span whose content is valid UTF-8, the contents of the
    segments of [splitCodeContent], concatenated in order, are the content
    of the span: the stylist loses and adds no text. *)
Theorem splitCodeContent_text (span : Span) (th : Theme) :
  ValidString (Content span) = true ->
  joinContents (splitCodeContent span th) = Content span.
Proof.
  intros Hvalid. rewrite splitCodeContent_contents.
  apply rangeRunes_encodeRunes. exact Hvalid.
Qed.

(** X10. [splitCodeContent] gives no segment exactly when the content of
    the span is empty: an empty span disappears, any other span gives at
    least one segment. *)
Theorem splitCodeContent_nil_iff (span : Span) (th : Theme) :
  splitCodeContent span th = [] <-> Content span = "".
Proof.
  rewrite splitCodeContent_map. split.
  - intros Hnil. apply map_eq_nil in Hnil.
    apply (splitByKeywords_nil_iff keywords). exact Hnil.
  - intros ->. reflexivity.
Qed.

(** X11. The color of the span that comes in is never kept: two spans
    that differ in [Color] only give the same segments. *)
Theorem splitCodeContent_ignores_color (th : Theme) (f : FontT) (sz : SizeT)
        (c1 c2 : NRGBA) (content : string) (i : bool) (m : MetadataT) :
  splitCodeContent (mkSpanStyle _ _ _ f sz c1 content i m) th
  = splitCodeContent (mkSpanStyle _ _ _ f sz c2 content i m) th.
Proof.
  rewrite !splitCodeContent_map. cbn [Content].
  apply map_ext. intros part. unfold styleToken.
  destruct (IsKeyword part); [| destruct (isSymbol (Text part));
                                [| destruct (isString (Text part))]];
    reflexivity.
Qed.

(** X12. On the tokens of the tokenizer the three tests of the [switch]
    exclude each other: a token flagged as a keyword is neither a symbol
    nor a string, and a symbol is no string. The order of the cases
    decides nothing. *)
Theorem switch_cases_exclusive (content : string) (part : Token) :
  In part (splitByKeywords content keywords) ->
  (IsKeyword part = true ->
   isSymbol (Text part) = false /\ isString (Text part) = false)
  /\ (isSymbol (Text part) = true -> isString (Text part) = false).
Proof.
  intros Hin. split; [| apply isSymbol_not_isString].
  intros Hk. apply splitByKeywords_token in Hin.
  destruct Hin as (c & _ & ->).
  destruct c as [r | rs]; cbn [tokenOf classifyToken Text IsKeyword] in *;
    [discriminate Hk |].
  apply classifyLoop_In in Hk. unfold keywords in Hk. cbn [In] in Hk.
  destruct Hk as [<- | [<- | [<- | []]]]; split; reflexivity.
Qed.

(** X13. Every separator byte of the input is a token of its own, not
    flagged as a keyword; the stylist colors it with the symbol color when
    the byte is one of "(),;{}" and with the default color of the theme
    otherwise (space, tab, newline, period). *)
Theorem separator_byte_token (span : Span) (th : Theme) (content : string)
        (kws : list string) (c : ascii) :
  In c (list_ascii_of_string separators) ->
  In c (list_ascii_of_string content) ->
  In {| Text := String c ""; IsKeyword := false |}
     (splitByKeywords content kws)
  /\ Color (styleToken span th {| Text := String c ""; IsKeyword := false |})
     = if hasByte symbols (byteval c)
       then symbolColor else Fg (ThemePalette th).
Proof.
  intros Hsep Hin. split.
  - destruct (separator_byte c Hsep) as (Hc & Hrune & Htext).
    rewrite <- Htext. apply splitByKeywords_separator; [exact Hrune |].
    apply rangeRunes_ascii_byte; assumption.
  - cbn in Hsep.
    repeat (destruct Hsep as [<- | Hsep]; [reflexivity |]).
    contradiction.
Qed.

(** X14. A segment of the stylist is stable: styled again with the same
    theme it gives itself and nothing else. *)
Theorem splitCodeContent_segment_stable (span : Span) (th : Theme)
        (seg : Span) :
  In seg (splitCodeContent span th) -> splitCodeContent seg th = [seg].
Proof.
  rewrite splitCodeContent_map. intros Hin.
  apply in_map_iff in Hin. destruct Hin as (part & <- & Hin).
  rewrite splitCodeContent_map, styleToken_content.
  apply splitByKeywords_token_chunk in Hin.
  destruct Hin as (c & -> & Hok & Hvalid).
  rewrite tokenOf_text.
  rewrite (splitByKeywords_chunk_text keywords c Hok Hvalid).
  cbn [map]. rewrite styleToken_restyle. reflexivity.
Qed.

Variable Typeface : FontT -> string.

(** X15. When the content of every monospace span is valid UTF-8, the
    loop of [main] keeps the text: the contents of the styled spans,
    concatenated, are the contents of the rendered spans, concatenated. *)
Theorem styleSpans_text (th : Theme) (spans : list Span) :
  Forall (fun span => isCode Typeface span = true ->
                      ValidString (Content span) = true) spans ->
  joinContents (styleSpans Typeface th spans) = joinContents spans.
Proof.
  intros Hvalid. rewrite styleSpans_flat_map.
  induction Hvalid as [| span spans Hspan _ IH];
    cbn [flat_map joinContents]; [reflexivity |].
  rewrite joinContents_app, IH. f_equal.
  destruct (isCode Typeface span).
  - rewrite splitCodeContent_contents.
    apply rangeRunes_encodeRunes. apply Hspan. reflexivity.
  - cbn. apply append_nil_r.
Qed.

(** X16. The loop of [main] touches monospace spans only: the other
    spans come out unchanged, in their order, and the monospace spans that
    come out are one for each token of the monospace spans that went
    in. *)
Theorem styleSpans_keeps_others (th : Theme) (spans : list Span) :
  filter (fun span => negb (isCode Typeface span))
         (styleSpans Typeface th spans)
  = filter (fun span => negb (isCode Typeface span)) spans
  /\ List.length (filter (isCode Typeface) (styleSpans Typeface th spans))
     = List.length (flat_map (fun span =>
                           if isCode Typeface span
                           then splitByKeywords (Content span) keywords
                           else []) spans).
Proof.
  rewrite styleSpans_flat_map.
  assert (Hcode : forall span : Span,
             isCode Typeface span = true ->
             Forall (fun seg => isCode Typeface seg = true)
                    (splitCodeContent span th)).
  { intros span Hspan. apply Forall_forall. intros seg Hseg.
    unfold isCode in *.
    rewrite (splitCodeContent_font span th seg Hseg). exact Hspan. }
  assert (Hnone : forall segs : list Span,
             Forall (fun seg => isCode Typeface seg = true) segs ->
             filter (fun span => negb (isCode Typeface span)) segs = []
             /\ filter (isCode Typeface) segs = segs).
  { induction 1 as [| seg segs Hseg _ [IH1 IH2]]; cbn [filter];
      [split; reflexivity |].
    rewrite Hseg. cbn [negb]. rewrite IH1, IH2. split; reflexivity. }
  induction spans as [| span spans [IH1 IH2]]; cbn [flat_map filter];
    [split; reflexivity |].
  rewrite !filter_app, !List.length_app, IH1, IH2.
  destruct (isCode Typeface span) eqn:Hspan; cbn [negb].
  - destruct (Hnone _ (Hcode span Hspan)) as [H1 H2].
    rewrite H1, H2, splitCodeContent_map, List.length_map.
    split; reflexivity.
  - cbn [filter]. rewrite Hspan. cbn [negb app List.length].
    split; reflexivity.
Qed.

(** X17. The loop of [main] distributes over concatenation: styling two
    lists of spans in a row is styling each and appending the results. *)
Theorem styleSpans_app (th : Theme) (xs ys : list Span) :
  styleSpans Typeface th (xs ++ ys)
  = styleSpans Typeface th xs ++ styleSpans Typeface th ys.
Proof.
  unfold styleSpans. rewrite fold_left_app.
  rewrite (styleSpans_loop Typeface th ys
             (fold_left (styleSpansStep Typeface th) xs [])).
  rewrite (styleSpans_loop Typeface th ys []). reflexivity.
Qed.

(** X18. The loop of [main] is idempotent: styling the styled spans again
    with the same theme changes nothing. *)
Theorem styleSpans_idempotent (th : Theme) (spans : list Span) :
  styleSpans Typeface th (styleSpans Typeface th spans)
  = styleSpans Typeface th spans.
Proof.
  rewrite !styleSpans_flat_map.
  induction spans as [| span spans IH]; cbn [flat_map]; [reflexivity |].
  rewrite flat_map_app, IH. f_equal.
  destruct (isCode Typeface span) eqn:Hspan.
  - assert (Hsegs : forall segs : list Span,
               Forall (fun seg => In seg (splitCodeContent span th)) segs ->
               flat_map (fun s => if isCode Typeface s
                                  then splitCodeContent s th else [s]) segs
               = segs).
    { induction 1 as [| seg segs Hseg _ IHs]; cbn [flat_map];
        [reflexivity |].
      rewrite IHs.
      replace (isCode Typeface seg) with true
        by (unfold isCode in *;
            rewrite (splitCodeContent_font span th seg Hseg);
            symmetry; exact Hspan).
      rewrite (splitCodeContent_segment span th seg Hseg). reflexivity. }
    apply Hsegs. apply Forall_forall. auto.
  - cbn [flat_map]. rewrite Hspan. reflexivity.
Qed.

End StylistProperties.

(** ** Properties of the fonts *)

Section FontProperties.

Variables FileData Face LibError : Type.
Variable ReadFile : string -> FileData + LibError.
Variable Parse : FileData -> Face + LibError.

Lemma loadFont_ok (path : string) :
  snd (loadFont ReadFile Parse path) = None <-> loads ReadFile Parse path.
Proof.
  unfold loadFont, loads. split.
  - destruct (ReadFile path) as [data | e]; [| discriminate].
    destruct (Parse data) as [face | e] eqn:Hparse; [| discriminate].
    intros _. exists data, face. auto.
  - intros (data & face & -> & ->). reflexivity.
Qed.

Lemma loadFont_pair (path : string) :
  (exists face, loadFont ReadFile Parse path = (Some face, None))
  \/ (exists err, loadFont ReadFile Parse path = (None, Some err)).
Proof.
  unfold loadFont.
  destruct (ReadFile path) as [data | e]; [| right; eexists; reflexivity].
  destruct (Parse data) as [face | e];
    [left | right]; eexists; reflexivity.
Qed.

(** [loadFonts] in terms of the three calls of [loadFont]. *)
Lemma loadFonts_cases (vars : Faces Face) :
  (exists f1 f2 f3,
      map (loadFont ReadFile Parse) fontPaths
      = [(Some f1, None); (Some f2, None); (Some f3, None)]
      /\ loadFonts ReadFile Parse vars
         = (mkFaces (Some f1) (Some f2) (Some f3), None))
  \/ (exists err vars',
         Exists (fun path => snd (loadFont ReadFile Parse path) <> None)
                fontPaths
         /\ loadFonts ReadFile Parse vars = (vars', Some err)
         /\ configureShaper vars' = None).
Proof.
  unfold loadFonts, fontPaths. cbn [map].
  destruct (loadFont_pair "fonts/SourceHanSansSC-Regular.otf")
    as [[f1 H1] | [e1 H1]]; rewrite H1.
  2: { right. eexists _, _. split; [| split; [reflexivity | reflexivity]].
       apply Exists_cons_hd. rewrite H1. discriminate. }
  destruct (loadFont_pair "fonts/SourceHanSansSC-Bold.otf")
    as [[f2 H2] | [e2 H2]]; rewrite H2.
  2: { right. eexists _, _. split; [| split; [reflexivity | reflexivity]].
       apply Exists_cons_tl, Exists_cons_hd. rewrite H2. discriminate. }
  destruct (loadFont_pair "fonts/JiangChengItalicBold400W.ttf")
    as [[f3 H3] | [e3 H3]]; rewrite H3.
  2: { right. eexists _, _. split; [| split; [reflexivity | reflexivity]].
       apply Exists_cons_tl, Exists_cons_tl, Exists_cons_hd.
       rewrite H3. discriminate. }
  left. exists f1, f2, f3. split; reflexivity.
Qed.

(** X19. [loadFonts] returns no error exactly when each of the three font
    files, regular, bold and italic, can be read and parsed. *)
Theorem loadFonts_succeeds_iff (vars : Faces Face) :
  snd (loadFonts ReadFile Parse vars) = None
  <-> Forall (loads ReadFile Parse) fontPaths.
Proof.
  destruct (loadFonts_cases vars)
    as [(f1 & f2 & f3 & Hmap & ->) | (err & vars' & Hex & -> & _)];
    cbn [snd].
  - split; [intros _ | reflexivity].
    unfold fontPaths in *. cbn [map] in Hmap.
    injection Hmap as H1 H2 H3.
    repeat constructor; apply loadFont_ok;
      [rewrite H1 | rewrite H2 | rewrite H3]; reflexivity.
  - split; [discriminate |]. intros Hall. exfalso.
    apply Exists_exists in Hex. destruct Hex as (path & Hin & Hfail).
    rewrite Forall_forall in Hall. apply Hfail, loadFont_ok, Hall, Hin.
Qed.

(** X20. Whatever the three variables held before, [configureShaper]
    after [loadFonts] dereferences no nil pointer exactly when [loadFonts]
    returned no error: a failed load leaves a nil face behind. [main],
    which stops on the error, therefore never panics there. *)
Theorem configureShaper_after_loadFonts (vars : Faces Face) :
  (configureShaper (fst (loadFonts ReadFile Parse vars)) <> None
   <-> snd (loadFonts ReadFile Parse vars) = None)
  /\ startFonts ReadFile Parse vars <> Panic.
Proof.
  unfold startFonts.
  destruct (loadFonts_cases vars)
    as [(f1 & f2 & f3 & _ & ->) | (err & vars' & _ & -> & Hnil)];
    cbn [fst snd configureShaper regularFace boldFace italicFace].
  - split; [split; [reflexivity | discriminate] | discriminate].
  - rewrite Hnil. split; [split; [contradiction | discriminate] |].
    discriminate.
Qed.

(** X21. When [main] gets its shaper, the collection holds three faces:
    those parsed from the regular, the bold and the italic file, in this
    order, as "Source Han Sans" in normal weight, in bold, and in normal
    weight italic; nothing of what the variables held before is left. *)
Theorem startFonts_collection (vars : Faces Face)
        (collection : list (FontFace Face)) :
  startFonts ReadFile Parse vars = Shaper collection ->
  map (fun ff => (Some (FaceOf ff), @None (error LibError))) collection
  = map (loadFont ReadFile Parse) fontPaths
  /\ map FaceFont collection
     = [ mkGioFont "Source Han Sans" Regular Normal;
         mkGioFont "Source Han Sans" Regular Bold;
         mkGioFont "Source Han Sans" Italic Normal ].
Proof.
  unfold startFonts.
  destruct (loadFonts_cases vars)
    as [(f1 & f2 & f3 & Hmap & ->) | (err & vars' & _ & -> & _)];
    [| discriminate].
  cbn [configureShaper regularFace boldFace italicFace].
  intros H. injection H as <-. rewrite Hmap. split; reflexivity.
Qed.

End FontProperties.

(** ** The further properties at concrete inputs *)

Lemma splitByKeywords_at_separator_witness :
  splitByKeywords ("ab" ++ String "(" "cd") keywords
  = splitByKeywords "ab" keywords
      ++ {| Text := "("; IsKeyword := false |}
      :: splitByKeywords "cd" keywords.
Proof.
  apply (splitByKeywords_at_separator keywords "ab" "(" "cd").
  simpl. right. right. right. left. reflexivity.
Defined.

Lemma splitByKeywords_token_fixpoint_witness :
  splitByKeywords "main" keywords = [ {| Text := "main"; IsKeyword := true |} ].
Proof.
  apply (splitByKeywords_token_fixpoint keywords "func main"
                                        {| Text := "main"; IsKeyword := true |}).
  vm_compute. right. right. left. reflexivity.
Defined.

Lemma splitByKeywords_flag_iff_witness :
  IsKeyword {| Text := "main"; IsKeyword := true |} = true
  <-> In "main" keywords /\ ~ In "main" separatorTexts.
Proof.
  apply (splitByKeywords_flag_iff keywords "func main"
                                  {| Text := "main"; IsKeyword := true |}).
  vm_compute. right. right. left. reflexivity.
Defined.

Lemma splitByKeywords_grows_invalid_witness :
  (String.length (String (chr 0xFF) "")
   < String.length
       (joinTexts (splitByKeywords (String (chr 0xFF) "") keywords)))%nat.
Proof.
  apply (splitByKeywords_grows_invalid keywords (String (chr 0xFF) "")).
  vm_compute. reflexivity.
Defined.

Lemma splitCodeContent_text_witness :
  joinContents (splitCodeContent (sampleSpan sampleLine) sampleTheme)
  = sampleLine.
Proof.
  apply (splitCodeContent_text unit unit unit (sampleSpan sampleLine)
                               sampleTheme).
  vm_compute. reflexivity.
Defined.

Lemma switch_cases_exclusive_witness :
  (IsKeyword {| Text := "func"; IsKeyword := true |} = true ->
   isSymbol "func" = false /\ isString "func" = false)
  /\ (isSymbol "func" = true -> isString "func" = false).
Proof.
  apply (switch_cases_exclusive "func main"
                                {| Text := "func"; IsKeyword := true |}).
  vm_compute. left. reflexivity.
Defined.

Lemma separator_byte_token_witness :
  In {| Text := "("; IsKeyword := false |} (splitByKeywords "f(x)" keywords)
  /\ Color (styleToken (sampleSpan "f(x)") sampleTheme
                       {| Text := "("; IsKeyword := false |})
     = symbolColor.
Proof.
  apply (separator_byte_token unit unit unit (sampleSpan "f(x)") sampleTheme
                              "f(x)" keywords "(").
  - simpl. right. right. right. left. reflexivity.
  - simpl. right. left. reflexivity.
Defined.

Lemma splitCodeContent_segment_stable_witness :
  splitCodeContent
    (styleToken (sampleSpan "f(x)") sampleTheme
                {| Text := "f"; IsKeyword := false |}) sampleTheme
  = [ styleToken (sampleSpan "f(x)") sampleTheme
                 {| Text := "f"; IsKeyword := false |} ].
Proof.
  apply (splitCodeContent_segment_stable
           unit unit unit (sampleSpan "f(x)") sampleTheme
           (styleToken (sampleSpan "f(x)") sampleTheme
                       {| Text := "f"; IsKeyword := false |})).
  vm_compute. left. reflexivity.
Defined.

Lemma styleSpans_text_witness :
  joinContents (styleSpans (fun f => f) sampleTheme sampleSpans)
  = joinContents sampleSpans.
Proof.
  apply (styleSpans_text string unit unit (fun f => f) sampleTheme
                         sampleSpans).
  repeat constructor; intros _; vm_compute; reflexivity.
Defined.

Lemma startFonts_collection_witness :
  map (fun ff => (Some (FaceOf ff), @None (error unit)))
      [ mkFontFace (mkGioFont "Source Han Sans" Regular Normal)
                   "fonts/SourceHanSansSC-Regular.otf";
        mkFontFace (mkGioFont "Source Han Sans" Regular Bold)
                   "fonts/SourceHanSansSC-Bold.otf";
        mkFontFace (mkGioFont "Source Han Sans" Italic Normal)
                   "fonts/JiangChengItalicBold400W.ttf" ]
  = map (loadFont sampleReadFile sampleParse) fontPaths
  /\ map FaceFont
         [ mkFontFace (mkGioFont "Source Han Sans" Regular Normal)
                      "fonts/SourceHanSansSC-Regular.otf";
           mkFontFace (mkGioFont "Source Han Sans" Regular Bold)
                      "fonts/SourceHanSansSC-Bold.otf";
           mkFontFace (mkGioFont "Source Han Sans" Italic Normal)
                      "fonts/JiangChengItalicBold400W.ttf" ]
     = [ mkGioFont "Source Han Sans" Regular Normal;
         mkGioFont "Source Han Sans" Regular Bold;
         mkGioFont "Source Han Sans" Italic Normal ].
Proof.
  apply (startFonts_collection string string unit sampleReadFile sampleParse
                               (mkFaces None None None)).
  reflexivity.
Defined.

(** ** The keyword list and the bytes of the tokens *)

Section KeywordsAndBytes.

Lemma classifyLoop_members (kws kws' : list string) (token : string) :
  (forall k, In k kws <-> In k kws') ->
  classifyLoop token kws false = classifyLoop token kws' false.
Proof.
  intros Hsame.
  destruct (classifyLoop token kws false) eqn:H1;
    destruct (classifyLoop token kws' false) eqn:H2; try reflexivity.
  - apply classifyLoop_In, Hsame, classifyLoop_In in H1. congruence.
  - apply classifyLoop_In, Hsame, classifyLoop_In in H2. congruence.
Qed.

(** The bytes of the encoding of a valid rune from [runeSelf] on are all
    from 0x80 on. *)
Lemma encoderune_high_bytes (r : rune) :
  128 <= r -> ValidRune r = true ->
  Forall (fun c => 128 <= byteval c) (list_ascii_of_string (encoderune r)).
Proof.
  intros Hlo Hvalid. apply ValidRune_iff in Hvalid.
  unfold surrogateMin, surrogateMax, maxRune in Hvalid.
  destruct (Z.le_gt_cases r 2047) as [H2 | H2].
  { assert (Hex : exists a d, 0 <= a < 32 /\ 0 <= d < 64 /\ r = a * 64 + d)
      by (exists (r / 64), (r mod 64); divmod).
    destruct Hex as (a & d & Ha & Hd & ->).
    rewrite encoderune_2 by lia. cbn [list_ascii_of_string].
    repeat constructor; rewrite byteval_chr; lia. }
  destruct (Z.le_gt_cases r 65535) as [H3 | H3].
  { assert (Hex : exists a b d,
               0 <= a < 16 /\ 0 <= b < 64 /\ 0 <= d < 64
               /\ r = a * 4096 + b * 64 + d)
      by (exists (r / 4096), ((r / 64) mod 64), (r mod 64); divmod).
    destruct Hex as (a & b & d & Ha & Hb & Hd & ->).
    rewrite encoderune_3 by (unfold surrogateMin, surrogateMax; lia).
    cbn [list_ascii_of_string].
    repeat constructor; rewrite byteval_chr; lia. }
  assert (Hex : exists a b c d,
             0 <= a < 8 /\ 0 <= b < 64 /\ 0 <= c < 64 /\ 0 <= d < 64
             /\ r = a * 262144 + b * 4096 + c * 64 + d)
    by (exists (r / 262144), ((r / 4096) mod 64), ((r / 64) mod 64),
          (r mod 64); divmod).
  destruct Hex as (a & b & c & d & Ha & Hb & Hc & Hd & ->).
  rewrite encoderune_4 by (unfold maxRune; lia).
  cbn [list_ascii_of_string].
  repeat constructor; rewrite byteval_chr; lia.
Qed.

Lemma list_ascii_of_string_app (a b : string) :
  list_ascii_of_string (a ++ b)
  = list_ascii_of_string a ++ list_ascii_of_string b.
Proof. induction a as [| x a IH]; cbn; [| rewrite IH]; reflexivity. Qed.

Lemma separator_byte_low (c : ascii) :
  In c (list_ascii_of_string separators) -> byteval c < 128.
Proof. intros Hin. apply (separator_byte c Hin). Qed.

(** The encoding of a valid rune that is no separator holds no separator
    byte. *)
Lemma runeString_no_separator (r : rune) (c : ascii) :
  ValidRune r = true -> ContainsRune separators r = false ->
  In c (list_ascii_of_string (runeString r)) ->
  ~ In c (list_ascii_of_string separators).
Proof.
  intros Hvalid Hnosep Hin Hsep. unfold runeString in Hin.
  destruct (Z.lt_ge_cases r 128) as [Hlt | Hge].
  - assert (H0 : 0 <= r)
      by (apply ValidRune_iff in Hvalid;
          unfold surrogateMin, surrogateMax in Hvalid; lia).
    rewrite encoderune_1 in Hin by lia. cbn in Hin.
    destruct Hin as [<- | []].
    destruct (separator_byte _ Hsep) as (_ & Hrune & _).
    rewrite byteval_chr in Hrune by lia. congruence.
  - pose proof (encoderune_high_bytes r Hge Hvalid) as Hhigh.
    rewrite Forall_forall in Hhigh. specialize (Hhigh c Hin).
    apply separator_byte_low in Hsep. lia.
Qed.

Lemma encodeRunes_no_separator (rs : list rune) (c : ascii) :
  Forall (fun r => ValidRune r = true) rs ->
  Forall (fun r => ContainsRune separators r = false) rs ->
  In c (list_ascii_of_string (encodeRunes rs)) ->
  ~ In c (list_ascii_of_string separators).
Proof.
  intros Hvalid. induction Hvalid as [| r rs Hr _ IH]; intros Hrun Hin;
    [contradiction Hin |].
  inversion Hrun as [| x xs Hx Hxs]; subst.
  cbn [encodeRunes] in Hin. rewrite list_ascii_of_string_app in Hin.
  apply in_app_or in Hin. destruct Hin as [Hin | Hin].
  - eapply runeString_no_separator; eassumption.
  - apply IH; assumption.
Qed.

(** X22. The tokens depend on the keyword list only through its members:
    two lists with the same members, in any order and with any
    repetitions, give the same tokens. *)
Theorem splitByKeywords_keyword_members (content : string)
        (kws kws' : list string) :
  (forall k, In k kws <-> In k kws') ->
  splitByKeywords content kws = splitByKeywords content kws'.
Proof.
  intros Hsame. rewrite !splitByKeywords_chunks.
  apply map_ext. intros [r | rs]; cbn [tokenOf]; [reflexivity |].
  unfold classifyToken. f_equal. apply classifyLoop_members. exact Hsame.
Qed.

(** X23. The keyword list decides the flags only, never where the input
    is cut: the texts of the tokens are the same for every keyword
    list. *)
Theorem splitByKeywords_texts_any_keywords (content : string)
        (kws kws' : list string) :
  map Text (splitByKeywords content kws)
  = map Text (splitByKeywords content kws').
Proof.
  rewrite !splitByKeywords_chunks, !map_map.
  apply map_ext. intros c. rewrite !tokenOf_text. reflexivity.
Qed.

(** X24. A token that holds a separator byte is that separator alone: no
    other token of the tokenizer contains a space, a tab, a newline or
    one of "().,;{}". *)
Theorem splitByKeywords_separator_alone (content : string)
        (kws : list string) (part : Token) (c : ascii) :
  In part (splitByKeywords content kws) ->
  In c (list_ascii_of_string (Text part)) ->
  In c (list_ascii_of_string separators) ->
  part = {| Text := String c ""; IsKeyword := false |}.
Proof.
  intros Hpart Hin Hsep.
  apply splitByKeywords_token_chunk in Hpart.
  destruct Hpart as (ch & -> & Hok & Hvalid).
  destruct ch as [r | rs]; cbn [tokenOf chunkOk chunkRunes] in *.
  - destruct Hok as [_ Htext]. rewrite Htext in Hin |- *.
    cbn in Hin. destruct Hin as [-> | []]. reflexivity.
  - destruct Hok as [_ Hrun]. exfalso.
    cbn [classifyToken Text] in Hin.
    exact (encodeRunes_no_separator rs c Hvalid Hrun Hin Hsep).
Qed.

End KeywordsAndBytes.

Lemma splitByKeywords_keyword_members_witness :
  splitByKeywords "func main" ["main"; "func"; "main"]
  = splitByKeywords "func main" ["func"; "main"].
Proof.
  apply (splitByKeywords_keyword_members "func main" ["main"; "func"; "main"]
                                         ["func"; "main"]).
  intros k. simpl. split; intros H; decompose [or] H; auto.
Defined.

Lemma splitByKeywords_separator_alone_witness :
  In {| Text := "("; IsKeyword := false |} (splitByKeywords "f(x)" keywords)
  /\ {| Text := "("; IsKeyword := false |}
     = {| Text := String "(" ""; IsKeyword := false |}.
Proof.
  split; [vm_compute; right; left; reflexivity |].
  apply (splitByKeywords_separator_alone
           "f(x)" keywords {| Text := "("; IsKeyword := false |} "(").
  - vm_compute. right. left. reflexivity.
  - simpl. left. reflexivity.
  - simpl. right. right. right. left. reflexivity.
Defined.
